(** * Breakpad processor: fast source-line resolver, address-list walker
      and processor driver

    A shallow embedding of

    - [src/processor/fast_source_line_resolver.cc]
      ([LookupAddress], [ConstructInlineFrames], [LoadMapFromMemory],
      [FindWindowsFrameInfo], [FindCFIFrameInfo]),
    - [src/processor/stackwalker_address_list.cc]
      ([GetContextFrame], [GetCallerFrame]),
    - the processor driver exercised by
      [src/processor/minidump_processor_unittest.cc],

    together with the properties the specification states about them. *)

From Stdlib Require Import ZArith Lia Sorted.
From Stdlib Require Import Strings.Byte.
From stdpp Require Import base option list strings gmap.

Local Open Scope Z_scope.

(** ** Machine integers *)

(** [uint64_t] and [size_t] are 64 bits wide, [unsigned int] is 32 bits wide;
    values are kept in [Z] and every operation that can leave the range is
    reduced explicitly. *)
Module U64.

Definition modulus : Z := 2 ^ 64.

Definition wrap (z : Z) : Z := z mod modulus.

Definition add (a b : Z) : Z := wrap (a + b).

Definition sub (a b : Z) : Z := wrap (a - b).

Definition in_range (z : Z) : Prop := 0 <= z < modulus.

End U64.

Module U32.

Definition modulus : Z := 2 ^ 32.

Definition wrap (z : Z) : Z := z mod modulus.

End U32.

(** [MemAddr] is [uint64_t]. *)
Abbreviation MemAddr := Z.

(** The range test of [LookupAddress] (line 92) and of
    [FindWindowsFrameInfo] (line 311):
    [address >= function_base && address - function_base < function_size],
    the subtraction being the wrapping one of [uint64_t]. *)
Definition range_contains (address function_base function_size : MemAddr) : bool :=
  (function_base <=? address) && (U64.sub address function_base <? function_size).

(** ** Stack frames *)

(** [CodeModule]: only [base_address()] and [code_file()] are used. *)
Record CodeModule := mkCodeModule {
  base_address : Z;
  code_file : string
}.

(** [StackFrame::FrameTrust] ([stack_frame.h] is not among the sources).
    The sources name [FRAME_TRUST_INLINE] and [FRAME_TRUST_PREWALKED]; the
    others stand for the remaining levels of the specification (context,
    cfi, frame_pointer, scan_prologue, scan), and [FRAME_TRUST_NONE] for
    the level of a frame no walker has set yet. *)
Inductive FrameTrust :=
  | FRAME_TRUST_NONE
  | FRAME_TRUST_SCAN
  | FRAME_TRUST_CFI_SCAN
  | FRAME_TRUST_FP
  | FRAME_TRUST_CFI
  | FRAME_TRUST_PREWALKED
  | FRAME_TRUST_CONTEXT
  | FRAME_TRUST_INLINE.

(** [StackFrame]; [module] is a pointer and may be null. *)
Record StackFrame := mkStackFrame {
  instruction : Z;
  module : option CodeModule;
  function_name : string;
  function_base : Z;
  source_file_name : string;
  source_line : Z;
  source_line_base : Z;
  is_multiple : bool;
  trust : FrameTrust
}.

(** [new StackFrame()]: every member zero or empty, no module. *)
Definition StackFrame_new : StackFrame :=
  {| instruction := 0; module := None; function_name := "";
     function_base := 0; source_file_name := ""; source_line := 0;
     source_line_base := 0; is_multiple := false;
     trust := FRAME_TRUST_NONE |}.

Definition set_instruction (v : Z) (f : StackFrame) : StackFrame :=
  {| instruction := v; module := module f; function_name := function_name f;
     function_base := function_base f; source_file_name := source_file_name f;
     source_line := source_line f; source_line_base := source_line_base f;
     is_multiple := is_multiple f; trust := trust f |}.

Definition set_function_name (v : string) (f : StackFrame) : StackFrame :=
  {| instruction := instruction f; module := module f; function_name := v;
     function_base := function_base f; source_file_name := source_file_name f;
     source_line := source_line f; source_line_base := source_line_base f;
     is_multiple := is_multiple f; trust := trust f |}.

Definition set_function_base (v : Z) (f : StackFrame) : StackFrame :=
  {| instruction := instruction f; module := module f;
     function_name := function_name f;
     function_base := v; source_file_name := source_file_name f;
     source_line := source_line f; source_line_base := source_line_base f;
     is_multiple := is_multiple f; trust := trust f |}.

Definition set_source_file_name (v : string) (f : StackFrame) : StackFrame :=
  {| instruction := instruction f; module := module f;
     function_name := function_name f;
     function_base := function_base f; source_file_name := v;
     source_line := source_line f; source_line_base := source_line_base f;
     is_multiple := is_multiple f; trust := trust f |}.

Definition set_source_line (v : Z) (f : StackFrame) : StackFrame :=
  {| instruction := instruction f; module := module f;
     function_name := function_name f;
     function_base := function_base f; source_file_name := source_file_name f;
     source_line := v; source_line_base := source_line_base f;
     is_multiple := is_multiple f; trust := trust f |}.

Definition set_source_line_base (v : Z) (f : StackFrame) : StackFrame :=
  {| instruction := instruction f; module := module f;
     function_name := function_name f;
     function_base := function_base f; source_file_name := source_file_name f;
     source_line := source_line f; source_line_base := v;
     is_multiple := is_multiple f; trust := trust f |}.

Definition set_is_multiple (v : bool) (f : StackFrame) : StackFrame :=
  {| instruction := instruction f; module := module f;
     function_name := function_name f;
     function_base := function_base f; source_file_name := source_file_name f;
     source_line := source_line f; source_line_base := source_line_base f;
     is_multiple := v; trust := trust f |}.

Definition set_trust (v : FrameTrust) (f : StackFrame) : StackFrame :=
  {| instruction := instruction f; module := module f;
     function_name := function_name f;
     function_base := function_base f; source_file_name := source_file_name f;
     source_line := source_line f; source_line_base := source_line_base f;
     is_multiple := is_multiple f; trust := v |}.

(** [frame->module->base_address()].  The resolver is entered only with a
    frame whose module pointer is set; the source has no defined behaviour
    for a null pointer, the value given here for it is arbitrary, and the
    properties of the resolver are stated for frames with a module. *)
Definition module_base (frame : StackFrame) : Z :=
  from_option base_address 0 (module frame).

(** ** Static maps

    [static_map.h], [static_range_map.h], [static_address_map.h] and
    [static_contained_range_map.h] are not among the sources; the resolver
    only calls their query operations.  Each map is kept as the sorted
    array of entries its serialized form holds, and each query follows the
    description the specification gives of it. *)

Module StaticMap.

(** Modelled from the spec: [StaticMap<K,V>] (static_map.h is missing), an
    array of keys in strictly increasing order with one value per key.  An
    iterator is the part of the array from its position on; [end()] is the
    empty remainder. *)
Abbreviation t V := (list (Z * V)).

Abbreviation iterator V := (list (Z * V)).

(** Modelled from the spec: [find(key)], the value stored under [key]. *)
Fixpoint find {V : Type} (m : t V) (key : Z) : option V :=
  match m with
  | [] => None
  | (k, v) :: rest => if k =? key then Some v else find rest key
  end.

(** Modelled from the spec: [lower_bound(key)], an iterator at the first
    entry whose key is not less than [key]. *)
Fixpoint lower_bound {V : Type} (m : t V) (key : Z) : iterator V :=
  match m with
  | [] => []
  | (k, v) :: rest => if key <=? k then m else lower_bound rest key
  end.

(** Keys strictly increasing (the invariant of the serialized layout). *)
Definition sorted {V : Type} (m : t V) : Prop :=
  StronglySorted Z.lt (map fst m).

End StaticMap.

Module StaticRangeMap.

(** Modelled from the spec: [StaticRangeMap<Addr,V>] (static_range_map.h is
    missing); an entry is keyed by the high endpoint of its interval and
    records the interval's base. *)
Record range (V : Type) := mkRange {
  high : Z;
  base : Z;
  entry : V
}.
Arguments mkRange {V} _ _ _.
Arguments high {V} _.
Arguments base {V} _.
Arguments entry {V} _.

Abbreviation t V := (list (range V)).

Definition size_of {V : Type} (r : range V) : Z :=
  U64.wrap (high r - base r + 1).

(** Modelled from the spec: [RetrieveRange(addr)] yields
    [(value, base, size)] of the interval that contains [addr]: the first
    entry whose high endpoint is not below [addr], provided its base is not
    above [addr]. *)
Fixpoint RetrieveRange {V : Type} (m : t V) (address : Z) : option (V * Z * Z) :=
  match m with
  | [] => None
  | r :: rest =>
      if address <=? high r then
        if base r <=? address then Some (entry r, base r, size_of r) else None
      else RetrieveRange rest address
  end.

(** The last entry of [m] with base not above [address]. *)
Fixpoint nearest {V : Type} (m : t V) (address : Z) (found : option (range V))
  : option (range V) :=
  match m with
  | [] => found
  | r :: rest =>
      nearest rest address (if base r <=? address then Some r else found)
  end.

(** Modelled from the spec: [RetrieveNearestRange(addr)] "returns the
    greatest interval with base ≤ addr, whether or not it contains addr". *)
Definition RetrieveNearestRange {V : Type} (m : t V) (address : Z)
  : option (V * Z * Z) :=
  match nearest m address None with
  | Some r => Some (entry r, base r, size_of r)
  | None => None
  end.

End StaticRangeMap.

Module StaticAddressMap.

(** Modelled from the spec: [StaticAddressMap<Addr,V>]
    (static_address_map.h is missing), points in increasing order. *)
Abbreviation t V := (list (Z * V)).

Fixpoint nearest {V : Type} (m : t V) (address : Z) (found : option (Z * V))
  : option (Z * V) :=
  match m with
  | [] => found
  | (k, v) :: rest =>
      nearest rest address (if k <=? address then Some (k, v) else found)
  end.

(** Modelled from the spec: [Retrieve(addr) → (value, point)] "returns the
    greatest point ≤ addr". *)
Definition Retrieve {V : Type} (m : t V) (address : Z) : option (V * Z) :=
  match nearest m address None with
  | Some (k, v) => Some (v, k)
  | None => None
  end.

End StaticAddressMap.

Module StaticContainedRangeMap.

(** Modelled from the spec: [StaticContainedRangeMap<Addr,V>]
    (static_contained_range_map.h is missing), "recursive structure; each
    node holds a StaticRangeMap of immediate children". *)
Inductive t (V : Type) : Type :=
  | Node (children : list (child V))
with child (V : Type) : Type :=
  | Child (hi lo : Z) (value : V) (sub : t V).
Arguments Node {V} _.
Arguments Child {V} _ _ _ _.

(** Modelled from the spec: [RetrieveRanges(addr)], every value whose
    range contains [addr].  The child whose range contains [addr] is
    searched first and its own entry is added after those found below it,
    which is the order [ConstructInlineFrames] documents for the vector it
    receives ("from innermost entry to outermost entry").  The result is
    [None] when the call returns [false]. *)
Fixpoint RetrieveRanges {V : Type} (m : t V) (address : Z) : option (list V) :=
  match m with
  | Node children =>
      (fix walk (cs : list (child V)) : option (list V) :=
         match cs with
         | [] => None
         | Child hi lo v sub :: cs' =>
             if address <=? hi then
               if lo <=? address
               then Some (default [] (RetrieveRanges sub address) ++ [v])
               else None
             else walk cs'
         end) children
  end.

(** Modelled from the spec: [RetrieveRange(addr)], the value of the
    innermost range that contains [addr]. *)
Definition RetrieveRange {V : Type} (m : t V) (address : Z) : option V :=
  match RetrieveRanges m address with
  | Some (v :: _) => Some v
  | _ => None
  end.

End StaticContainedRangeMap.

(** ** Records of the fast resolver

    The structs of [fast_source_line_resolver_types.h], with the members
    the resolver reads. *)

Module Line.
Record t := mk {
  source_file_id : Z;
  line : Z
}.
End Line.

Module Inline.
Record t := mk {
  has_call_site_file_id : bool;
  call_site_line : Z;
  call_site_file_id : Z;
  origin_id : Z;
  inline_ranges : list (Z * Z)
}.
End Inline.

Module InlineOrigin.
Record t := mk {
  name : string
}.
End InlineOrigin.

(** [struct Function]. *)
Module Func.
Record t := mk {
  name : string;
  parameter_size : Z;
  is_multiple : bool;
  lines : StaticRangeMap.t Line.t;
  inlines : StaticContainedRangeMap.t Inline.t
}.
End Func.

Module PublicSymbol.
Record t := mk {
  name : string;
  parameter_size : Z;
  is_multiple : bool
}.
End PublicSymbol.

(** [WindowsFrameInfo]; [type_] is the [StackInfoTypes] enumerator as an
    integer, [valid] the bit set of [Validity] flags. *)
Module WindowsFrameInfo.
Record t := mk {
  type_ : Z;
  valid : Z;
  prolog_size : Z;
  epilog_size : Z;
  parameter_size : Z;
  saved_register_size : Z;
  local_size : Z;
  max_stack_size : Z;
  allocates_base_pointer : bool;
  program_string : string
}.

Definition set_parameter_size (v : Z) (w : t) : t :=
  {| type_ := type_ w; valid := valid w; prolog_size := prolog_size w;
     epilog_size := epilog_size w; parameter_size := v;
     saved_register_size := saved_register_size w;
     local_size := local_size w; max_stack_size := max_stack_size w;
     allocates_base_pointer := allocates_base_pointer w;
     program_string := program_string w |}.

Definition set_valid (v : Z) (w : t) : t :=
  {| type_ := type_ w; valid := v; prolog_size := prolog_size w;
     epilog_size := epilog_size w; parameter_size := parameter_size w;
     saved_register_size := saved_register_size w;
     local_size := local_size w; max_stack_size := max_stack_size w;
     allocates_base_pointer := allocates_base_pointer w;
     program_string := program_string w |}.
End WindowsFrameInfo.

(** [FastSourceLineResolver::Module], by the contents of its maps.  The
    entries of [windows_frame_info_] are kept as the records [CopyWFI]
    reads out of the raw bytes; the values of [files_], [cfi_initial_rules_]
    and [cfi_delta_rules_] are C strings. *)
Record FastModule := mkFastModule {
  files_ : StaticMap.t string;
  functions_ : StaticRangeMap.t Func.t;
  public_symbols_ : StaticAddressMap.t PublicSymbol.t;
  windows_frame_info_ : list (StaticContainedRangeMap.t WindowsFrameInfo.t);
  cfi_initial_rules_ : StaticRangeMap.t string;
  cfi_delta_rules_ : StaticMap.t string;
  inline_origins_ : StaticMap.t InlineOrigin.t
}.

(** The module [m] with [public_symbols] as its public-symbol map. *)
Definition with_public_symbols
    (public_symbols : StaticAddressMap.t PublicSymbol.t) (m : FastModule)
  : FastModule :=
  {| files_ := files_ m; functions_ := functions_ m;
     public_symbols_ := public_symbols;
     windows_frame_info_ := windows_frame_info_ m;
     cfi_initial_rules_ := cfi_initial_rules_ m;
     cfi_delta_rules_ := cfi_delta_rules_ m;
     inline_origins_ := inline_origins_ m |}.

(** ** ConstructInlineFrames (lines 125-185) *)

(** Lines 160-166: the base of the first range of the inline that contains
    [address] is added to [function_base]; the upper bound
    [range.first + range.second] is a [uint64_t] sum. *)
Fixpoint add_range_base (address : Z) (ranges : list (Z * Z)) (function_base : Z)
  : Z :=
  match ranges with
  | [] => function_base
  | (first, second) :: rest =>
      if (first <=? address) && (address <? U64.add first second)
      then U64.add function_base first
      else add_range_base address rest function_base
  end.

(** Lines 136-167: the frame built for one inline record, a copy of [frame]
    with the origin's name, the call site and the range base stored in it. *)
Definition new_inline_frame (m : FastModule) (frame : StackFrame) (address : Z)
    (i : Inline.t) : StackFrame :=
  let new_frame := frame in
  let new_frame :=
    match StaticMap.find (inline_origins_ m) (Inline.origin_id i) with
    | Some origin => set_function_name (InlineOrigin.name origin) new_frame
    | None => set_function_name "<name omitted>" new_frame
    end in
  let new_frame := set_source_line (Inline.call_site_line i) new_frame in
  let new_frame :=
    if Inline.has_call_site_file_id i then
      match StaticMap.find (files_ m) (Inline.call_site_file_id i) with
      | Some file => set_source_file_name file new_frame
      | None => new_frame
      end
    else new_frame in
  let new_frame := set_function_base (module_base new_frame) new_frame in
  let new_frame :=
    set_function_base
      (add_range_base address (Inline.inline_ranges i) (function_base new_frame))
      new_frame in
  set_trust FRAME_TRUST_INLINE new_frame.

(** Lines 135-172: one [push_back] per entry of [inline_ptrs], in order. *)
Definition push_inline_frames (m : FastModule) (frame : StackFrame) (address : Z)
    (inline_ptrs : list Inline.t) (inlined_frames : list StackFrame)
  : list StackFrame :=
  fold_left (fun deque i => deque ++ [new_inline_frame m frame address i])
            inline_ptrs inlined_frames.

(** Lines 180-183: each frame of the deque, front to back, swaps its file
    and line with the saved pair. *)
Fixpoint swap_file_line (inlined_frames : list StackFrame)
    (parent_frame_source_file_name : string) (parent_frame_source_line : Z)
  : list StackFrame :=
  match inlined_frames with
  | [] => []
  | inlined_frame :: rest =>
      set_source_line parent_frame_source_line
        (set_source_file_name parent_frame_source_file_name inlined_frame)
      :: swap_file_line rest (source_file_name inlined_frame)
                        (source_line inlined_frame)
  end.

(** The state after the call: the frame and the deque. *)
Definition ConstructInlineFrames (m : FastModule) (frame : StackFrame)
    (address : Z) (inline_map : StaticContainedRangeMap.t Inline.t)
    (inlined_frames : list StackFrame) : StackFrame * list StackFrame :=
  match StaticContainedRangeMap.RetrieveRanges inline_map address with
  | None => (frame, inlined_frames)
  | Some inline_ptrs =>
      let inlined_frames :=
        push_inline_frames m frame address inline_ptrs inlined_frames in
      match last inlined_frames with
      | None => (frame, inlined_frames)
      | Some back =>
          let parent_frame_source_file_name := source_file_name frame in
          let parent_frame_source_line := source_line frame in
          let frame := set_source_file_name (source_file_name back) frame in
          let frame := set_source_line (source_line back) frame in
          (frame,
           swap_file_line inlined_frames parent_frame_source_file_name
                          parent_frame_source_line)
      end
  end.

(** The call site an inline record gives: its line, and its file when the
    record has a file id that [files_] knows; lines 151-157 leave the
    file name copied from [frame] otherwise. *)
Definition call_site (m : FastModule) (frame : StackFrame) (i : Inline.t)
  : string * Z :=
  (if Inline.has_call_site_file_id i
   then default (source_file_name frame)
                (StaticMap.find (files_ m) (Inline.call_site_file_id i))
   else source_file_name frame,
   Inline.call_site_line i).

(** The name lines 140-147 give the frame of an inline record. *)
Definition inline_name (m : FastModule) (i : Inline.t) : string :=
  match StaticMap.find (inline_origins_ m) (Inline.origin_id i) with
  | Some origin => InlineOrigin.name origin
  | None => "<name omitted>"
  end.

(** The file and the line of a frame. *)
Definition file_line (frame : StackFrame) : string * Z :=
  (source_file_name frame, source_line frame).

(** ** LookupAddress (lines 71-123) *)

(** Lines 93-110: the frame filled in from the function and its line. *)
Definition fill_from_function (m : FastModule) (frame : StackFrame)
    (address : Z) (func : Func.t) (function_base : Z) : StackFrame :=
  let frame := set_function_name (Func.name func) frame in
  let frame :=
    set_function_base (U64.add (module_base frame) function_base) frame in
  let frame := set_is_multiple (Func.is_multiple func) frame in
  match StaticRangeMap.RetrieveRange (Func.lines func) address with
  | Some (line, line_base, _) =>
      let frame :=
        match StaticMap.find (files_ m) (Line.source_file_id line) with
        | Some file => set_source_file_name file frame
        | None => frame
        end in
      let frame := set_source_line (Line.line line) frame in
      set_source_line_base (U64.add (module_base frame) line_base) frame
  | None => frame
  end.

(** Lines 118-121. *)
Definition fill_from_public_symbol (frame : StackFrame)
    (public_symbol : PublicSymbol.t) (public_address : Z) : StackFrame :=
  let frame := set_function_name (PublicSymbol.name public_symbol) frame in
  let frame :=
    set_function_base (U64.add (module_base frame) public_address) frame in
  set_is_multiple (PublicSymbol.is_multiple public_symbol) frame.

(** [inlined_frames] is [None] for a null pointer.  The result is the
    frame and the deque after the call.  [func_ptr] is non-null exactly
    when [RetrieveNearestRange] found an entry, so [nearest] stands for
    both; [covering] is the condition of line 90-92. *)
Definition LookupAddress (m : FastModule) (frame : StackFrame)
    (inlined_frames : option (list StackFrame))
  : StackFrame * option (list StackFrame) :=
  let address := U64.sub (instruction frame) (module_base frame) in
  let nearest := StaticRangeMap.RetrieveNearestRange (functions_ m) address in
  let covering :=
    match nearest with
    | Some (func, function_base, function_size) =>
        if range_contains address function_base function_size
        then Some (func, function_base) else None
    | None => None
    end in
  match covering with
  | Some (func, function_base) =>
      let frame := fill_from_function m frame address func function_base in
      match inlined_frames with
      | Some deque =>
          let '(frame, deque) :=
            ConstructInlineFrames m frame address (Func.inlines func) deque in
          (frame, Some deque)
      | None => (frame, None)
      end
  | None =>
      match StaticAddressMap.Retrieve (public_symbols_ m) address with
      | Some (public_symbol, public_address) =>
          let tighter :=
            match nearest with
            | None => true
            | Some (_, function_base, _) => function_base <? public_address
            end in
          if tighter
          then (fill_from_public_symbol frame public_symbol public_address,
                inlined_frames)
          else (frame, inlined_frames)
      | None => (frame, inlined_frames)
      end
  end.

(** ** FindWindowsFrameInfo (lines 279-330) *)

Section WindowsFrameInfoLookup.

(** [windows_frame_info.h] is not among the sources: the two enumerators
    that index [windows_frame_info_], the [VALID_PARAMETER_SIZE] bit and
    the value of a default-constructed [WindowsFrameInfo] are taken as
    given. *)
Variables STACK_INFO_FRAME_DATA STACK_INFO_FPO : nat.
Variable VALID_PARAMETER_SIZE : Z.
Variable WindowsFrameInfo_new : WindowsFrameInfo.t.

(** [windows_frame_info_[type].RetrieveRange(address, frame_info_ptr)]
    followed by [CopyWFI]. *)
Definition RetrieveFrameInfo (m : FastModule) (type : nat) (address : Z)
  : option WindowsFrameInfo.t :=
  match windows_frame_info_ m !! type with
  | Some info_map => StaticContainedRangeMap.RetrieveRange info_map address
  | None => None
  end.

(** The pointer the function returns ([None] for [nullptr]) together with
    the local [result] as it stands at the [return]. *)
Definition FindWindowsFrameInfo_run (m : FastModule) (frame : StackFrame)
  : option WindowsFrameInfo.t * WindowsFrameInfo.t :=
  let address := U64.sub (instruction frame) (module_base frame) in
  let result := WindowsFrameInfo_new in
  match
    match RetrieveFrameInfo m STACK_INFO_FRAME_DATA address with
    | Some info => Some info
    | None => RetrieveFrameInfo m STACK_INFO_FPO address
    end
  with
  | Some info =>
      let result := info in
      (Some result, result)
  | None =>
      let nearest :=
        StaticRangeMap.RetrieveNearestRange (functions_ m) address in
      let covering :=
        match nearest with
        | Some (function, function_base, function_size) =>
            if range_contains address function_base function_size
            then Some function else None
        | None => None
        end in
      match covering with
      | Some function =>
          let result :=
            WindowsFrameInfo.set_parameter_size
              (Func.parameter_size function) result in
          let result :=
            WindowsFrameInfo.set_valid
              (Z.lor (WindowsFrameInfo.valid result) VALID_PARAMETER_SIZE)
              result in
          (Some result, result)
      | None =>
          let result :=
            match StaticAddressMap.Retrieve (public_symbols_ m) address with
            | Some (public_symbol, public_address) =>
                let tighter :=
                  match nearest with
                  | None => true
                  | Some (_, function_base, _) =>
                      function_base <? public_address
                  end in
                if tighter
                then WindowsFrameInfo.set_parameter_size
                       (PublicSymbol.parameter_size public_symbol) result
                else result
            | None => result
            end in
          (None, result)
      end
  end.

Definition FindWindowsFrameInfo (m : FastModule) (frame : StackFrame)
  : option WindowsFrameInfo.t :=
  fst (FindWindowsFrameInfo_run m frame).

End WindowsFrameInfoLookup.

(** ** FindCFIFrameInfo (lines 332-364) *)

Section CFILookup.

(** [cfi_frame_info.h] and [ParseCFIRuleSet] are not among the sources.
    [ParseCFIRuleSet rule_set frame_info] gives the flag the call returns
    and [frame_info] as the call leaves it. *)
Variable CFIFrameInfo : Type.
Variable CFIFrameInfo_new : CFIFrameInfo.
Variable ParseCFIRuleSet : string -> CFIFrameInfo -> bool * CFIFrameInfo.

(** Line 359, [ParseCFIRuleSet(delta.GetValuePtr(), rules.get())]: the
    rules after one delta is merged; the flag is dropped. *)
Definition merge_delta (rules : CFIFrameInfo) (delta : Z * string)
  : CFIFrameInfo :=
  (ParseCFIRuleSet delta.2 rules).2.

(** Lines 358-361: [while (delta != end() && delta.GetKey() <= address)]. *)
Fixpoint apply_delta_rules (delta : StaticMap.iterator string) (address : Z)
    (rules : CFIFrameInfo) : CFIFrameInfo :=
  match delta with
  | [] => rules
  | (key, value) :: next =>
      if key <=? address
      then apply_delta_rules next address (snd (ParseCFIRuleSet value rules))
      else rules
  end.

Definition FindCFIFrameInfo (m : FastModule) (frame : StackFrame)
  : option CFIFrameInfo :=
  let address := U64.sub (instruction frame) (module_base frame) in
  match StaticRangeMap.RetrieveRange (cfi_initial_rules_ m) address with
  | None => None
  | Some (initial_rules, initial_base, initial_size) =>
      let '(parsed, rules) := ParseCFIRuleSet initial_rules CFIFrameInfo_new in
      if negb parsed then None
      else
        let delta := StaticMap.lower_bound (cfi_delta_rules_ m) initial_base in
        Some (apply_delta_rules delta address rules)
  end.

End CFILookup.

(** ** LoadMapFromMemory (lines 224-277) *)

(** A [Static*Map] object built from a pointer is a view of the buffer
    from that address on; a default-constructed map views nothing. *)
Definition StaticView : Type := option (list byte).

(** [FastSourceLineResolver::Module], by the views its members hold. *)
Record ModuleViews := mkModuleViews {
  is_corrupt_ : bool;
  files_view : StaticView;
  functions_view : StaticView;
  public_symbols_view : StaticView;
  windows_frame_info_views : list StaticView;
  cfi_initial_rules_view : StaticView;
  cfi_delta_rules_view : StaticView;
  inline_origins_view : StaticView
}.

Definition set_is_corrupt (v : bool) (m : ModuleViews) : ModuleViews :=
  {| is_corrupt_ := v; files_view := files_view m;
     functions_view := functions_view m;
     public_symbols_view := public_symbols_view m;
     windows_frame_info_views := windows_frame_info_views m;
     cfi_initial_rules_view := cfi_initial_rules_view m;
     cfi_delta_rules_view := cfi_delta_rules_view m;
     inline_origins_view := inline_origins_view m |}.

(** The byte at [i], zero past the end of what the list holds. *)
Definition byte_at (buffer : list byte) (i : nat) : Z :=
  Z.of_N (Byte.to_N (nth i buffer x00)).

(** [SimpleSerializer<bool>::Read]: one byte, non-zero for [true]. *)
Definition read_bool (buffer : list byte) : bool :=
  negb (byte_at buffer 0 =? 0).

(** [reinterpret_cast<const uint64_t*>(mem_buffer)[i]] on a little-endian
    host. *)
Definition read_uint64 (mem_buffer : list byte) (i : nat) : Z :=
  fold_right (fun b acc => b + 256 * acc) 0
             (map (fun j => byte_at mem_buffer (8 * i + j)) (seq 0 8)).

(** [mem_buffer + offset] as a view. *)
Definition view_at (mem_buffer : list byte) (offset : Z) : StaticView :=
  Some (drop (Z.to_nat offset) mem_buffer).

Section LoadMap.

(** [WindowsFrameInfo::STACK_INFO_LAST] is declared in a header that is
    not among the sources. *)
Variable STACK_INFO_LAST : nat.

(** Modelled from the spec: [kNumberMaps_], declared in
    [fast_source_line_resolver_types.h] (missing):
    "kNumberMaps = 3 + STACK_INFO_LAST + 3". *)
Definition kNumberMaps_ : nat := (3 + STACK_INFO_LAST + 3)%nat.

(** Lines 243-245: [offsets[i] = offsets[i - 1] + map_sizes[i - 1]] for
    [count] entries starting at index [i], [previous] being
    [offsets[i - 1]]. *)
Fixpoint fill_offsets (map_sizes : nat -> Z) (count i : nat) (previous : Z)
  : list Z :=
  match count with
  | O => []
  | S count' =>
      let offset := U64.add previous (map_sizes (i - 1)%nat) in
      offset :: fill_offsets map_sizes count' (S i) offset
  end.

(** Lines 235-245. *)
Definition offsets_of (map_sizes : nat -> Z) : list Z :=
  let header_size := U32.wrap (Z.of_nat kNumberMaps_ * 8) in
  header_size :: fill_offsets map_sizes (kNumberMaps_ - 1) 1 header_size.

(** Lines 246-247. *)
Definition expected_size_of (map_sizes : nat -> Z) : Z :=
  let offsets := offsets_of map_sizes in
  U64.add
    (U64.add (U64.add 1 (nth (kNumberMaps_ - 1) offsets 0))
             (map_sizes (kNumberMaps_ - 1)%nat))
    1.

(** The flag the call returns and the module as the call leaves it;
    [memory_buffer] is [None] for a null pointer. *)
Definition LoadMapFromMemory (m : ModuleViews)
    (memory_buffer : option (list byte)) (memory_buffer_size : Z)
  : bool * ModuleViews :=
  match memory_buffer with
  | None => (false, m)
  | Some memory_buffer =>
      let m := set_is_corrupt (read_bool memory_buffer) m in
      let mem_buffer := drop 1 memory_buffer in
      let map_sizes := read_uint64 mem_buffer in
      let offsets := offsets_of map_sizes in
      let expected_size := expected_size_of map_sizes in
      if negb (expected_size =? memory_buffer_size)
         && negb (expected_size =? U64.sub memory_buffer_size 1)
      then (false, m)
      else
        let at_ (map_id : nat) := view_at mem_buffer (nth map_id offsets 0) in
        (true,
         {| is_corrupt_ := is_corrupt_ m;
            files_view := at_ 0%nat;
            functions_view := at_ 1%nat;
            public_symbols_view := at_ 2%nat;
            windows_frame_info_views :=
              map (fun i => at_ (3 + i)%nat) (seq 0 STACK_INFO_LAST);
            cfi_initial_rules_view := at_ (3 + STACK_INFO_LAST)%nat;
            cfi_delta_rules_view := at_ (3 + STACK_INFO_LAST + 1)%nat;
            inline_origins_view := at_ (3 + STACK_INFO_LAST + 2)%nat |})
  end.

(** [map_sizes[start] + ... + map_sizes[start + count - 1]], in the
    integers. *)
Fixpoint sum_sizes (map_sizes : nat -> Z) (start count : nat) : Z :=
  match count with
  | O => 0
  | S count' => map_sizes start + sum_sizes map_sizes (S start) count'
  end.

(** "1 + header + Σ sizes" for the sizes a buffer declares: the flag byte,
    the [kNumberMaps_] sizes of 8 bytes each and the maps themselves. *)
Definition declared_total (memory_buffer : list byte) : Z :=
  1 + 8 * Z.of_nat kNumberMaps_
  + sum_sizes (read_uint64 (drop 1 memory_buffer)) 0 kNumberMaps_.

(** The lengths the specification has the loader accept: "1 + header +
    Σ sizes equals the buffer length (a single trailing NUL is
    tolerated)". *)
Definition spec_accepts (memory_buffer : list byte) (memory_buffer_size : Z)
  : Prop :=
  memory_buffer_size = declared_total memory_buffer
  \/ memory_buffer_size = declared_total memory_buffer + 1.

End LoadMap.

(** The maps of two modules are the same views. *)
Definition same_maps (m m' : ModuleViews) : Prop :=
  files_view m' = files_view m
  /\ functions_view m' = functions_view m
  /\ public_symbols_view m' = public_symbols_view m
  /\ windows_frame_info_views m' = windows_frame_info_views m
  /\ cfi_initial_rules_view m' = cfi_initial_rules_view m
  /\ cfi_delta_rules_view m' = cfi_delta_rules_view m
  /\ inline_origins_view m' = inline_origins_view m.

(** The views of a module in the order of lines 262-275, that is, by
    [map_id]. *)
Definition views_in_order (m : ModuleViews) : list StaticView :=
  [files_view m; functions_view m; public_symbols_view m]
  ++ windows_frame_info_views m
  ++ [cfi_initial_rules_view m; cfi_delta_rules_view m;
      inline_origins_view m].

(** ** CopyWFI (lines 187-219) *)

(** The bytes of a C string: up to the first NUL. *)
Fixpoint c_string (raw : list byte) : list byte :=
  match raw with
  | [] => []
  | b :: rest => if Byte.eqb b x00 then [] else b :: c_string rest
  end.

Section CopyWFI.

(** What the host makes of four bytes read through an [int32_t] or a
    [uint32_t] pointer, and the nine-argument constructor of
    [WindowsFrameInfo] ([windows_frame_info.h] is not among the
    sources). *)
Variable int32_of_bytes : list byte -> Z.
Variable uint32_of_bytes : list byte -> Z.
Variable WindowsFrameInfo_make :
  Z -> Z -> Z -> Z -> Z -> Z -> Z -> bool -> string -> WindowsFrameInfo.t.

(** [sizeof(int32_t)] and [sizeof(uint32_t)]. *)
Definition sizeof_int32 : nat := 4.

(** The four bytes at [raw + offset]. *)
Definition four_bytes_at (raw : list byte) (offset : nat) : list byte :=
  take sizeof_int32 (drop offset raw).

Definition CopyWFI (raw : list byte) : WindowsFrameInfo.t :=
  let type := int32_of_bytes (four_bytes_at raw 0) in
  let para_uint32 (i : nat) :=
    uint32_of_bytes
      (four_bytes_at raw (2 * sizeof_int32 + i * sizeof_int32)) in
  let prolog_size := para_uint32 0%nat in
  let epilog_size := para_uint32 1%nat in
  let parameter_size := para_uint32 2%nat in
  let saved_register_size := para_uint32 3%nat in
  let local_size := para_uint32 4%nat in
  let max_stack_size := para_uint32 5%nat in
  let boolean := (2 * sizeof_int32 + 6 * sizeof_int32)%nat in
  let allocates_base_pointer := negb (byte_at raw boolean =? 0) in
  let program_string :=
    String.string_of_list_byte (c_string (drop (boolean + 1) raw)) in
  WindowsFrameInfo_make type prolog_size epilog_size parameter_size
    saved_register_size local_size max_stack_size allocates_base_pointer
    program_string.

End CopyWFI.

(** ** The address-list walker (stackwalker_address_list.cc) *)

Module AddressList.

(** [MemoryRegion]: [GetMemoryAtAddress]. *)
Definition MemoryRegion : Type := Z -> option Z.

(** [StackwalkerAddressList]: the members [memory_] and [system_info_] of
    the [Stackwalker] base, and the three members of its own.  [frames_]
    points to an array of [frame_count_] addresses. *)
Record t := mk {
  system_info_ : option unit;
  memory_ : option MemoryRegion;
  frames_ : list Z;
  frame_count_ : nat;
  next_frame_index_ : nat
}.

(** Lines 52-63: the base is constructed with [nullptr] for the system
    information and for the stack memory. *)
Definition new (frames : list Z) (frame_count : nat) : t :=
  {| system_info_ := None; memory_ := None; frames_ := frames;
     frame_count_ := frame_count; next_frame_index_ := 0 |}.

Definition set_next_frame_index (v : nat) (w : t) : t :=
  {| system_info_ := system_info_ w; memory_ := memory_ w;
     frames_ := frames_ w; frame_count_ := frame_count_ w;
     next_frame_index_ := v |}.

(** [frames_[i]]; the array holds [frame_count_] entries and no index
    beyond them is read. *)
Definition frame_at (w : t) (i : nat) : Z := nth i (frames_ w) 0.

(** Lines 65-76. *)
Definition GetContextFrame (w : t) : option StackFrame * t :=
  if (frame_count_ w =? 0)%nat then (None, w)
  else
    let frame := StackFrame_new in
    let frame := set_instruction (frame_at w 0) frame in
    let frame := set_trust FRAME_TRUST_PREWALKED frame in
    let w := set_next_frame_index 1 w in
    (Some frame, w).

(** Lines 78-90; the two arguments are not used. *)
Definition GetCallerFrame (w : t) (stack : list StackFrame)
    (stack_scan_allowed : bool) : option StackFrame * t :=
  if (frame_count_ w <=? next_frame_index_ w)%nat then (None, w)
  else
    let frame := StackFrame_new in
    let frame := set_instruction (frame_at w (next_frame_index_ w)) frame in
    let w := set_next_frame_index (S (next_frame_index_ w)) w in
    let frame := set_trust FRAME_TRUST_PREWALKED frame in
    (Some frame, w).

(** The frames the walker hands out: the context frame, then one caller
    frame after another until [GetCallerFrame] returns [nullptr], each
    call receiving the stack built so far.  [fuel] bounds the number of
    [GetCallerFrame] calls that return a frame. *)
Fixpoint callers (fuel : nat) (w : t) (stack : list StackFrame)
    (stack_scan_allowed : bool) : list StackFrame * t :=
  match GetCallerFrame w stack stack_scan_allowed with
  | (None, w) => (stack, w)
  | (Some frame, w') =>
      match fuel with
      | O => (stack, w)
      | S fuel' => callers fuel' w' (stack ++ [frame]) stack_scan_allowed
      end
  end.

Definition frames_of (fuel : nat) (w : t) (stack_scan_allowed : bool)
  : list StackFrame * t :=
  match GetContextFrame w with
  | (None, w) => ([], w)
  | (Some frame, w) => callers fuel w [frame] stack_scan_allowed
  end.

(** The frame both functions build for an address. *)
Definition prewalked_frame (address : Z) : StackFrame :=
  set_trust FRAME_TRUST_PREWALKED (set_instruction address StackFrame_new).

End AddressList.

(** ** The processor driver

    [minidump_processor.cc] and [stack_frame_symbolizer.cc] are not among
    the sources; their tests are.  The driver is modelled from section 4.9
    of the specification, with the order of the checks that
    [TestCorruptMinidumps] and [GetProcessCreateTime] fix. *)

Module Processor.

(** The closed set of return statuses; the five names the tests use and
    the three others the specification lists. *)
Inductive ProcessResult :=
  | PROCESS_OK
  | PROCESS_ERROR_MINIDUMP_NOT_FOUND
  | PROCESS_ERROR_NO_MINIDUMP_HEADER
  | PROCESS_ERROR_NO_THREAD_LIST
  | PROCESS_ERROR_NO_MEMORY_LIST
  | PROCESS_ERROR_NO_SYSTEM_INFO
  | PROCESS_ERROR_NO_EXCEPTION_OR_ASSERTION
  | PROCESS_SYMBOL_SUPPLIER_INTERRUPTED.

Definition closed_status_set : list ProcessResult :=
  [ PROCESS_OK; PROCESS_ERROR_MINIDUMP_NOT_FOUND;
    PROCESS_ERROR_NO_MINIDUMP_HEADER; PROCESS_ERROR_NO_THREAD_LIST;
    PROCESS_ERROR_NO_MEMORY_LIST; PROCESS_ERROR_NO_SYSTEM_INFO;
    PROCESS_ERROR_NO_EXCEPTION_OR_ASSERTION;
    PROCESS_SYMBOL_SUPPLIER_INTERRUPTED ].

(** [SymbolSupplier::SymbolResult]. *)
Inductive SymbolResult := NOT_FOUND | FOUND | INTERRUPT.

(** [SymbolSupplier::GetCStringSymbolData], by the [code_file()] of the
    module it is asked about. *)
Definition SymbolSupplier : Type := string -> SymbolResult.

(** A thread of the dump, by the module of each frame its walk yields
    ([None] for a frame outside every module). *)
Record MinidumpThread := mkThread {
  walked_modules : list (option string)
}.

(** [Minidump], by what [Read()] and the accessors return; [None] is a null
    pointer. *)
Record Minidump := mkMinidump {
  Read : bool;
  header : option Z;
  GetThreadList : option (list MinidumpThread);
  GetSystemInfo : option unit;
  GetMemoryList : option unit
}.

(** What the symbolizer keeps while one dump is processed: the modules it
    has asked the supplier about, and the calls it has made, in order. *)
Record SymbolizerState := mkState {
  requested : gset string;
  calls : list string
}.

(** Symbolization threads the state through every frame and stops at an
    interrupt: [None] is the interrupt. *)
Definition Sym (A : Type) : Type := SymbolizerState -> option A * SymbolizerState.

Definition ret {A : Type} (a : A) : Sym A := fun s => (Some a, s).

Definition bind {A B : Type} (c : Sym A) (k : A -> Sym B) : Sym B :=
  fun s =>
    match c s with
    | (Some a, s') => k a s'
    | (None, s') => (None, s')
    end.

Notation "x <- c ;; k" := (bind c (fun x => k))
  (at level 100, c at next level, right associativity).

(** Modelled from the spec: the symbolizer's load of a module's symbols
    (stack_frame_symbolizer.cc is missing), "the symbolizer must call the
    symbol supplier at most once per (dump, module) pair"; "if the symbol
    supplier answers interrupt, walking halts". *)
Definition load_symbols (supplier : SymbolSupplier) (code_file : string)
  : Sym unit :=
  fun s =>
    if decide (code_file ∈ requested s) then (Some (), s)
    else
      let s' := {| requested := requested s;
                   calls := calls s ++ [code_file] |} in
      match supplier code_file with
      | INTERRUPT => (None, s')
      | FOUND | NOT_FOUND =>
          (Some (), {| requested := {[code_file]} ∪ requested s';
                       calls := calls s' |})
      end.

(** Modelled from the spec: the symbolizer's work on one frame
    (stack_frame_symbolizer.cc is missing); a frame outside every module
    and a processor without a supplier ask for nothing. *)
Definition symbolize_frame (supplier : option SymbolSupplier)
    (frame_module : option string) : Sym unit :=
  match supplier, frame_module with
  | Some supplier, Some code_file => load_symbols supplier code_file
  | _, _ => ret ()
  end.

(** Modelled from the spec: the walk of one thread (stackwalker.cc is
    missing), "after each frame is produced, the symbolizer is invoked". *)
Fixpoint walk_frames (supplier : option SymbolSupplier)
    (frames : list (option string)) : Sym unit :=
  match frames with
  | [] => ret ()
  | frame :: rest =>
      _ <- symbolize_frame supplier frame ;;
      walk_frames supplier rest
  end.

(** Modelled from the spec: "for every thread: ... walk, symbolize each
    frame" (minidump_processor.cc is missing). *)
Fixpoint walk_threads (supplier : option SymbolSupplier)
    (threads : list MinidumpThread) : Sym unit :=
  match threads with
  | [] => ret ()
  | thread :: rest =>
      _ <- walk_frames supplier (walked_modules thread) ;;
      walk_threads supplier rest
  end.

(** [MinidumpProcessor]: the supplier it was constructed with, and every
    [GetCStringSymbolData] call that supplier has received so far. *)
Record MinidumpProcessor := mkProcessor {
  supplier_ : option SymbolSupplier;
  lookups : list string
}.

(** Modelled from the spec: [MinidumpProcessor::Process]
    (minidump_processor.cc is missing).  The symbolizer starts every dump
    with nothing requested. *)
Definition Process (p : MinidumpProcessor) (dump : Minidump)
  : ProcessResult * MinidumpProcessor :=
  if negb (Read dump) then (PROCESS_ERROR_MINIDUMP_NOT_FOUND, p)
  else
    match header dump with
    | None => (PROCESS_ERROR_NO_MINIDUMP_HEADER, p)
    | Some _ =>
        match GetThreadList dump with
        | None => (PROCESS_ERROR_NO_THREAD_LIST, p)
        | Some threads =>
            let '(outcome, s) :=
              walk_threads (supplier_ p) threads
                           {| requested := ∅; calls := [] |} in
            let p' := {| supplier_ := supplier_ p;
                         lookups := lookups p ++ calls s |} in
            match outcome with
            | Some _ => (PROCESS_OK, p')
            | None => (PROCESS_SYMBOL_SUPPLIER_INTERRUPTED, p')
            end
        end
    end.

(** The number of [GetCStringSymbolData] calls made for [code_file]. *)
Definition lookup_count (code_file : string) (log : list string) : nat :=
  length (filter (fun c => c = code_file) log).

(** What the symbolizer maintains: no module was asked about twice, and
    every module asked about is remembered. *)
Definition consistent (s : SymbolizerState) : Prop :=
  NoDup (calls s) /\ forall c, c ∈ calls s -> c ∈ requested s.

(** A computation that never repeats a call: from a consistent state the
    calls stay free of duplicates, and the state stays consistent unless
    the supplier interrupted. *)
Definition frugal (c : Sym unit) : Prop :=
  forall s, consistent s ->
    NoDup (calls (c s).2) /\ ((c s).1 = Some () -> consistent (c s).2).

(** A supplier never interrupted on a module the symbolizer remembers. *)
Definition uninterrupted (supplier : SymbolSupplier) (s : SymbolizerState)
  : Prop :=
  forall c, c ∈ requested s -> supplier c <> INTERRUPT.

End Processor.

(** ** The barrier of pthread_fixes.h

    [src/common/android/testing/pthread_fixes.h] implements
    [pthread_barrier_t] with a mutex, a condition variable and a count.
    Whatever a thread does between [pthread_mutex_lock] and the next
    [pthread_cond_wait] or [pthread_mutex_unlock] happens with the mutex
    held, so each such stretch is one step of the barrier. *)

Module Barrier.

Definition PTHREAD_BARRIER_SERIAL_THREAD : Z := 0x12345.

(** [pthread_barrier_t]: the [unsigned count]; the mutex and the
    condition variable show in how the steps below are cut. *)
Record pthread_barrier_t := mk {
  count : Z
}.

(** Lines 52-59; [count] is an [unsigned]. *)
Definition pthread_barrier_init (count : Z) : Z * pthread_barrier_t :=
  (0, {| count := U32.wrap count |}).

(** Lines 82-87. *)
Definition pthread_barrier_destroy (barrier : pthread_barrier_t)
  : Z * pthread_barrier_t :=
  (0, {| count := 0 |}).

(** Where a call of [pthread_barrier_wait] stands after a step: it has
    returned a value, or it sits in [pthread_cond_wait]. *)
Inductive progress :=
  | Returned (value : Z)
  | Waiting.

(** Lines 63-75, from [pthread_mutex_lock] to the [return] of the thread
    that brings the count to zero or to the first [pthread_cond_wait] of
    any other thread; [--barrier->count] wraps at zero. *)
Definition wait_enter (barrier : pthread_barrier_t)
  : progress * pthread_barrier_t :=
  let count := U32.wrap (count barrier - 1) in
  if count =? 0
  then (Returned PTHREAD_BARRIER_SERIAL_THREAD, {| count := count |})
  else (Waiting, {| count := count |}).

(** Lines 75-79, from the return of [pthread_cond_wait] on: the loop
    condition [barrier->count > 0] sends the thread back to wait, or the
    call returns 0. *)
Definition wait_resume (barrier : pthread_barrier_t) : progress :=
  if 0 <? count barrier then Waiting else Returned 0.

(** Threads around one barrier: those inside [pthread_cond_wait], and
    the values the finished calls returned, in order. *)
Record system := mkSystem {
  barrier : pthread_barrier_t;
  waiting : list nat;
  returned : list (nat * Z)
}.

(** A thread calls [pthread_barrier_wait], or a waiting thread comes out
    of [pthread_cond_wait] (woken by the broadcast or spuriously). *)
Inductive event :=
  | Enter (thread : nat)
  | Wake (thread : nat).

(** One step; [None] when the event cannot happen: a thread inside
    [pthread_cond_wait] cannot call, a thread not inside cannot wake. *)
Definition step (e : event) (s : system) : option system :=
  match e with
  | Enter thread =>
      if decide (thread ∈ waiting s) then None
      else
        match wait_enter (barrier s) with
        | (Returned value, b) =>
            Some {| barrier := b; waiting := waiting s;
                    returned := returned s ++ [(thread, value)] |}
        | (Waiting, b) =>
            Some {| barrier := b; waiting := waiting s ++ [thread];
                    returned := returned s |}
        end
  | Wake thread =>
      if decide (thread ∈ waiting s) then
        match wait_resume (barrier s) with
        | Returned value =>
            Some {| barrier := barrier s;
                    waiting := filter (fun t => t <> thread) (waiting s);
                    returned := returned s ++ [(thread, value)] |}
        | Waiting => Some s
        end
      else None
  end.

Fixpoint run (events : list event) (s : system) : option system :=
  match events with
  | [] => Some s
  | e :: rest =>
      match step e s with
      | Some s' => run rest s'
      | None => None
      end
  end.

(** The system right after [pthread_barrier_init(&barrier, nullptr,
    count)]. *)
Definition start (count : Z) : system :=
  {| barrier := (pthread_barrier_init count).2; waiting := [];
     returned := [] |}.

(** The number of calls of [pthread_barrier_wait] among the events. *)
Fixpoint arrivals (events : list event) : nat :=
  match events with
  | [] => 0
  | Enter _ :: rest => S (arrivals rest)
  | Wake _ :: rest => arrivals rest
  end.

(** The calls that returned [PTHREAD_BARRIER_SERIAL_THREAD]. *)
Definition serial_returns (s : system) : list (nat * Z) :=
  filter (fun r : nat * Z => r.2 = PTHREAD_BARRIER_SERIAL_THREAD) (returned s).

(** What holds after [arrived] of [n] threads have called: before the
    last one the count is what is missing, nobody has returned and
    everybody waits; from the last one on the count is zero, one call has
    returned [PTHREAD_BARRIER_SERIAL_THREAD], the others 0 or nothing
    yet. *)
Definition invariant (n : Z) (arrived : nat) (s : system) : Prop :=
  if decide (Z.of_nat arrived < n) then
    count (barrier s) = n - Z.of_nat arrived
    /\ returned s = []
    /\ length (waiting s) = arrived
  else
    count (barrier s) = 0
    /\ length (serial_returns s) = 1%nat
    /\ Forall (fun r : nat * Z =>
                 r.2 = PTHREAD_BARRIER_SERIAL_THREAD \/ r.2 = 0) (returned s).

End Barrier.

(** ** The symbol supplier of the processor's tests

    [TestSymbolSupplier] of [minidump_processor_unittest.cc] (lines
    192-317). *)

Module TestSupplier.

Definition kSystemInfoOS : string := "Windows NT".
Definition kSystemInfoOSShort : string := "windows".
Definition kSystemInfoOSVersion : string := "5.1.2600 Service Pack 2".
Definition kSystemInfoCPU : string := "x86".
Definition kSystemInfoCPUInfo : string :=
  "GenuineIntel family 6 model 13 stepping 8".

(** The two members of [CodeModule] the supplier reads. *)
Record code_module := mkModule {
  code_file : string;
  debug_identifier : string
}.

(** [SystemInfo], with the members the supplier checks. *)
Record SystemInfo := mkSystemInfo {
  os : string;
  os_short : string;
  os_version : string;
  cpu : string;
  cpu_info : string
}.

(** [TestSymbolSupplier]: its two members, and the arrays it has
    allocated with [new char[]] and not yet deleted, by address. *)
Record t := mk {
  interrupt_ : bool;
  memory_buffers_ : gmap string nat;
  allocated : gmap nat (list byte)
}.

(** What a call hands back: the result, and the output arguments it has
    written ([None] for one it has left alone). *)
Record answer := mkAnswer {
  result : Processor.SymbolResult;
  symbol_file : option string;
  symbol_data : option nat;
  symbol_data_size : option Z
}.

(** [std::getline(in, data, delimiter)]: the bytes before the first
    [delimiter], or all of them. *)
Fixpoint getline (content : list byte) (delimiter : byte) : list byte :=
  match content with
  | [] => []
  | b :: rest =>
      if Byte.eqb b delimiter then [] else b :: getline rest delimiter
  end.

Section Environment.

(** [getenv("srcdir")] and the files of the machine ([None] for a path
    that cannot be opened). *)
Variable srcdir : option string.
Variable file_content : string -> option (list byte).

(** Lines 207-211. *)
Definition GetTestDataPath : string :=
  String.append (default "." srcdir) "/src/processor/testdata/".

(** Lines 242-265, the three-argument [GetSymbolFile]; the result is
    [None] when one of the [ASSERT_..._ABORT] lines calls [abort()]. *)
Definition GetSymbolFile (supplier : t) (module : option code_module)
    (system_info : option SystemInfo)
  : option (Processor.SymbolResult * option string) :=
  match module, system_info with
  | Some module, Some system_info =>
      if negb (String.eqb (cpu system_info) kSystemInfoCPU) then None
      else if negb (String.eqb (cpu_info system_info) kSystemInfoCPUInfo)
      then None
      else if negb (String.eqb (os system_info) kSystemInfoOS) then None
      else if negb (String.eqb (os_short system_info) kSystemInfoOSShort)
      then None
      else if negb (String.eqb (os_version system_info) kSystemInfoOSVersion)
      then None
      else if interrupt_ supplier then Some (Processor.INTERRUPT, None)
      else if String.eqb (code_file module) "c:\test_app.exe" then
        Some (Processor.FOUND,
              Some (String.append GetTestDataPath
                      (String.append "symbols/test_app.pdb/"
                         (String.append (debug_identifier module)
                                        "/test_app.sym"))))
      else Some (Processor.NOT_FOUND, None)
  | _, _ => None
  end.

(** Lines 267-282, the four-argument [GetSymbolFile]: on [FOUND] the
    file is read up to the character [to_char_type(eof())], the byte
    [0xff]; a file that cannot be opened leaves the data empty. *)
Definition GetSymbolFile_data (supplier : t) (module : option code_module)
    (system_info : option SystemInfo)
  : option (Processor.SymbolResult * option string * list byte) :=
  match GetSymbolFile supplier module system_info with
  | None => None
  | Some (Processor.FOUND, Some path) =>
      Some (Processor.FOUND, Some path,
            match file_content path with
            | Some content => getline content xff
            | None => []
            end)
  | Some (s, path) => Some (s, path, [])
  end.

(** Lines 284-309.  [new char[]] gives an address not in use;
    [memory_buffers_.insert] keeps the entry the map already has for the
    key. *)
Definition GetCStringSymbolData (supplier : t) (module : option code_module)
    (system_info : option SystemInfo) : option (answer * t) :=
  match GetSymbolFile_data supplier module system_info with
  | None => None
  | Some (Processor.FOUND, path, symbol_data_string) =>
      let size := Z.of_nat (length symbol_data_string) + 1 in
      let data := fresh (dom (allocated supplier)) in
      let key := from_option code_file "" module in
      Some ({| result := Processor.FOUND; symbol_file := path;
               symbol_data := Some data; symbol_data_size := Some size |},
            {| interrupt_ := interrupt_ supplier;
               memory_buffers_ :=
                 match memory_buffers_ supplier !! key with
                 | Some _ => memory_buffers_ supplier
                 | None => <[key := data]> (memory_buffers_ supplier)
                 end;
               allocated :=
                 <[data := symbol_data_string ++ [x00]]>
                   (allocated supplier) |})
  | Some (s, path, _) =>
      Some ({| result := s; symbol_file := path; symbol_data := None;
               symbol_data_size := None |}, supplier)
  end.

(** Lines 311-317. *)
Definition FreeSymbolData (supplier : t) (module : code_module) : t :=
  match memory_buffers_ supplier !! code_file module with
  | Some data =>
      {| interrupt_ := interrupt_ supplier;
         memory_buffers_ := delete (code_file module) (memory_buffers_ supplier);
         allocated := delete data (allocated supplier) |}
  | None => supplier
  end.

(** The path the supplier builds for a module of [test_app]. *)
Definition test_app_sym (module : code_module) : string :=
  String.append GetTestDataPath
    (String.append "symbols/test_app.pdb/"
       (String.append (debug_identifier module) "/test_app.sym")).

(** The data the supplier reads for a module of [test_app]. *)
Definition test_app_data (module : code_module) : list byte :=
  match file_content (test_app_sym module) with
  | Some content => getline content xff
  | None => []
  end.

End Environment.

(** The system information the supplier insists on. *)
Definition expected_system_info : SystemInfo :=
  {| os := kSystemInfoOS; os_short := kSystemInfoOSShort;
     os_version := kSystemInfoOSVersion; cpu := kSystemInfoCPU;
     cpu_info := kSystemInfoCPUInfo |}.

End TestSupplier.

(** * A sample module

    One function [f] over [0x1000, 0x1020) with a line record and two
    nested inlines, two public symbols, CFI rules for the function, and
    frames of the module loaded at [0x400000]. *)

Module Sample.

Definition test_app : CodeModule :=
  {| base_address := 0x400000; code_file := "c:\test_app.exe" |}.

Definition outer_inline : Inline.t :=
  {| Inline.has_call_site_file_id := true; Inline.call_site_line := 20;
     Inline.call_site_file_id := 1; Inline.origin_id := 7;
     Inline.inline_ranges := [(0x1000, 0x10)] |}.

Definition inner_inline : Inline.t :=
  {| Inline.has_call_site_file_id := true; Inline.call_site_line := 30;
     Inline.call_site_file_id := 2; Inline.origin_id := 8;
     Inline.inline_ranges := [(0x1004, 0x4)] |}.

Definition f : Func.t :=
  {| Func.name := "f"; Func.parameter_size := 4; Func.is_multiple := false;
     Func.lines :=
       [ StaticRangeMap.mkRange 0x100f 0x1000
           {| Line.source_file_id := 1; Line.line := 10 |} ];
     Func.inlines :=
       StaticContainedRangeMap.Node
         [ StaticContainedRangeMap.Child 0x100f 0x1000 outer_inline
             (StaticContainedRangeMap.Node
                [ StaticContainedRangeMap.Child 0x1007 0x1004 inner_inline
                    (StaticContainedRangeMap.Node []) ]) ] |}.

Definition pub : PublicSymbol.t :=
  {| PublicSymbol.name := "pub"; PublicSymbol.parameter_size := 8;
     PublicSymbol.is_multiple := true |}.

Definition early : PublicSymbol.t :=
  {| PublicSymbol.name := "early"; PublicSymbol.parameter_size := 0;
     PublicSymbol.is_multiple := false |}.

Definition resolver_module : FastModule :=
  {| files_ := [(1, "a.cc"); (2, "b.cc")];
     functions_ := [ StaticRangeMap.mkRange 0x101f 0x1000 f ];
     public_symbols_ := [(0x800, early); (0x2000, pub)];
     windows_frame_info_ :=
       replicate 5 (StaticContainedRangeMap.Node []);
     cfi_initial_rules_ :=
       [ StaticRangeMap.mkRange 0x101f 0x1000 ".cfa: $esp 4 +" ];
     cfi_delta_rules_ :=
       [ (0x800, "$ebx: 0"); (0x1001, ".cfa: $esp 8 +");
         (0x1004, "$ebp: .cfa 8 - ^"); (0x1010, ".cfa: $ebp 8 +");
         (0x1030, ".cfa: $esp 4 +") ];
     inline_origins_ :=
       [ (7, {| InlineOrigin.name := "outer_inl" |});
         (8, {| InlineOrigin.name := "inner_inl" |}) ] |}.

(** A frame of [test_app] at the module-relative address [offset]. *)
Definition frame_at (offset : Z) : StackFrame :=
  set_instruction (0x400000 + offset)
    {| instruction := 0; module := Some test_app; function_name := "";
       function_base := 0; source_file_name := ""; source_line := 0;
       source_line_base := 0; is_multiple := false;
       trust := FRAME_TRUST_CONTEXT |}.

(** The frame for [0x1005] once the line record of [f] has been read. *)
Definition leaf : StackFrame :=
  set_source_line 10 (set_source_file_name "a.cc" (frame_at 0x1005)).

(** A stand-in for [CFIFrameInfo]: the rule sets merged so far. *)
Definition collect_rules (rule_set : string) (rules : list string)
  : bool * list string :=
  (true, rules ++ [rule_set]).

(** A module before any load, for [STACK_INFO_LAST = 5]. *)
Definition unloaded : ModuleViews :=
  {| is_corrupt_ := false; files_view := None; functions_view := None;
     public_symbols_view := None;
     windows_frame_info_views := replicate 5 None;
     cfi_initial_rules_view := None; cfi_delta_rules_view := None;
     inline_origins_view := None |}.

(** An image for [STACK_INFO_LAST = 5] that declares eleven empty maps and
    stops right after the header: 1 + 88 bytes. *)
Definition image_without_terminator : list byte := replicate 89 x00.

(** An image for [STACK_INFO_LAST = 5] of 1 + 88 bytes whose header
    declares [2^64 - 1] bytes for the first map and none for the
    others. *)
Definition image_with_wrapping_size : list byte :=
  x00 :: replicate 8 xff ++ replicate 80 x00.

(** An image for [STACK_INFO_LAST = 5]: the flag, a header that declares 3
    bytes for the first map and none for the others, the 3 bytes, and the
    terminating NUL: 1 + 88 + 3 + 1 bytes. *)
Definition image : list byte :=
  x01 :: (x03 :: replicate 87 x00) ++ [x61; x62; x63; x00].

(** The four return addresses of the first scenario of the
    specification. *)
Definition addresses : list Z :=
  [0x40100a; 0x40113f; 0x4012c5; 0x7c812fd3].

(** A supplier that knows no module, as [TestSymbolSupplierLookupCounts]
    sets it up. *)
Definition no_symbols : Processor.SymbolSupplier :=
  fun _ => Processor.NOT_FOUND.

(** A supplier that interrupts at every call ([set_interrupt(true)]). *)
Definition interrupting : Processor.SymbolSupplier :=
  fun _ => Processor.INTERRUPT.

(** A dump with one thread of four frames, three of them in [test_app]
    and one in [kernel32]. *)
Definition dump : Processor.Minidump :=
  {| Processor.Read := true; Processor.header := Some 1171480435;
     Processor.GetThreadList :=
       Some [ {| Processor.walked_modules :=
                   [ Some "c:\test_app.exe"; Some "c:\test_app.exe";
                     Some "c:\test_app.exe";
                     Some "C:\WINDOWS\system32\kernel32.dll" ] |} ];
     Processor.GetSystemInfo := Some ();
     Processor.GetMemoryList := Some () |}.

End Sample.

(** * Properties *)

(** ** Wrapping arithmetic *)

Lemma U64_wrap_range z : U64.in_range (U64.wrap z).
Proof.
  unfold U64.in_range, U64.wrap, U64.modulus. apply Z.mod_pos_bound. lia.
Qed.

Lemma U64_wrap_small z : U64.in_range z -> U64.wrap z = z.
Proof. unfold U64.in_range, U64.wrap. intros H. apply Z.mod_small. exact H. Qed.

Lemma U64_sub_no_borrow a b :
  U64.in_range a -> U64.in_range b -> b <= a -> U64.sub a b = a - b.
Proof.
  unfold U64.sub, U64.in_range. intros Ha Hb Hle. apply U64_wrap_small.
  unfold U64.in_range. lia.
Qed.

(** ** The range test *)

(** C6.  For all 64-bit unsigned [address], [function_base] and
    [function_size], the test
    [address >= function_base && address - function_base < function_size]
    with the wrapping subtraction holds exactly when [address] lies in the
    interval from [function_base] to [function_base + function_size]
    (excluded), the sum taken in the integers, so also when it exceeds
    [2^64]. *)
Theorem range_contains_exact (address function_base function_size : Z) :
  U64.in_range address ->
  U64.in_range function_base ->
  U64.in_range function_size ->
  range_contains address function_base function_size = true
  <-> function_base <= address < function_base + function_size.
Proof.
  intros Ha Hb Hs. unfold range_contains.
  rewrite andb_true_iff, Z.leb_le, Z.ltb_lt.
  split.
  - intros [Hle Hlt]. rewrite U64_sub_no_borrow in Hlt by assumption. lia.
  - intros [Hle Hlt]. split; [exact Hle|].
    rewrite U64_sub_no_borrow by assumption. lia.
Qed.

(** An interval whose end [function_base + function_size] is beyond
    [2^64], and its last address. *)
Lemma range_contains_exact_witness :
  range_contains 18446744073709551615 18446744073709551600 32 = true
  <-> 18446744073709551600 <= 18446744073709551615
                            < 18446744073709551600 + 32.
Proof.
  apply range_contains_exact; unfold U64.in_range, U64.modulus; lia.
Defined.

(** ** LookupAddress *)

(** [ConstructInlineFrames] writes only the file and the line of the
    frame it is given. *)
Lemma ConstructInlineFrames_keeps_names m frame address inline_map deque :
  let frame' := (ConstructInlineFrames m frame address inline_map deque).1 in
  function_name frame' = function_name frame
  /\ function_base frame' = function_base frame
  /\ is_multiple frame' = is_multiple frame
  /\ source_line_base frame' = source_line_base frame.
Proof.
  unfold ConstructInlineFrames.
  destruct (StaticContainedRangeMap.RetrieveRanges inline_map address)
    as [inline_ptrs|]; [|simpl; tauto].
  destruct (last (push_inline_frames m frame address inline_ptrs deque));
    simpl; tauto.
Qed.

Lemma ConstructInlineFrames_no_ranges m frame address inline_map deque :
  StaticContainedRangeMap.RetrieveRanges inline_map address = None ->
  ConstructInlineFrames m frame address inline_map deque = (frame, deque).
Proof. intros H. unfold ConstructInlineFrames. rewrite H. reflexivity. Qed.

(** The frame [LookupAddress] leaves when the function [func] covers the
    address: the frame filled from the function, then handed to
    [ConstructInlineFrames] if inlined frames were asked for. *)
Lemma LookupAddress_covered m frame inlined_frames func fbase fsize :
  let address := U64.sub (instruction frame) (module_base frame) in
  StaticRangeMap.RetrieveNearestRange (functions_ m) address
    = Some (func, fbase, fsize) ->
  range_contains address fbase fsize = true ->
  (LookupAddress m frame inlined_frames).1
  = match inlined_frames with
    | Some deque =>
        (ConstructInlineFrames m
           (fill_from_function m frame address func fbase)
           address (Func.inlines func) deque).1
    | None => fill_from_function m frame address func fbase
    end.
Proof.
  intros address Hnear Hin. unfold LookupAddress. fold address.
  rewrite Hnear, Hin.
  destruct inlined_frames as [deque|]; [|reflexivity].
  destruct (ConstructInlineFrames _ _ _ _ _). reflexivity.
Qed.

Lemma fill_from_function_names m frame address func fbase :
  let frame' := fill_from_function m frame address func fbase in
  function_name frame' = Func.name func
  /\ function_base frame' = U64.add (module_base frame) fbase
  /\ is_multiple frame' = Func.is_multiple func.
Proof.
  unfold fill_from_function.
  destruct (StaticRangeMap.RetrieveRange (Func.lines func) address)
    as [[[line line_base] line_size]|]; [|simpl; tauto].
  destruct (StaticMap.find (files_ m) (Line.source_file_id line));
    simpl; tauto.
Qed.

(** C1.  For a frame in a module, with [address] the module-relative
    address: (1) when the function given by [RetrieveNearestRange]
    contains [address] under the range test, the frame's [function_name],
    [function_base] and [is_multiple] are those of the function, and when
    a line range of the function contains [address] the frame gets the
    line's base, and its line and file (the file when [files_] knows the
    id) unless an inline chain at [address] shifts them afterwards;
    (2) otherwise a public symbol at [public_address] is taken when no
    function was retrieved or [public_address] is above the base of the
    function that was rejected, and fills the three name fields; (3) in
    every other case the frame and the deque are left as they were. *)
Theorem LookupAddress_resolution (m : FastModule) (frame : StackFrame)
    (code_module : CodeModule) (inlined_frames : option (list StackFrame)) :
  module frame = Some code_module ->
  let address := U64.sub (instruction frame) (base_address code_module) in
  let nearest :=
    StaticRangeMap.RetrieveNearestRange (functions_ m) address in
  let uncovered :=
    forall func fbase fsize,
      nearest = Some (func, fbase, fsize) ->
      range_contains address fbase fsize = false in
  let result := (LookupAddress m frame inlined_frames).1 in
  (forall func fbase fsize,
      nearest = Some (func, fbase, fsize) ->
      range_contains address fbase fsize = true ->
      function_name result = Func.name func
      /\ function_base result = U64.add (base_address code_module) fbase
      /\ is_multiple result = Func.is_multiple func
      /\ (forall line line_base line_size,
             StaticRangeMap.RetrieveRange (Func.lines func) address
               = Some (line, line_base, line_size) ->
             source_line_base result
               = U64.add (base_address code_module) line_base
             /\ (inlined_frames = None
                 \/ StaticContainedRangeMap.RetrieveRanges
                      (Func.inlines func) address = None ->
                 source_line result = Line.line line
                 /\ source_file_name result
                    = default (source_file_name frame)
                        (StaticMap.find (files_ m)
                                        (Line.source_file_id line))))
      /\ (StaticRangeMap.RetrieveRange (Func.lines func) address = None ->
          inlined_frames = None
          \/ StaticContainedRangeMap.RetrieveRanges
               (Func.inlines func) address = None ->
          source_line result = source_line frame
          /\ source_file_name result = source_file_name frame
          /\ source_line_base result = source_line_base frame))
  /\ (forall public_symbol public_address,
         uncovered ->
         StaticAddressMap.Retrieve (public_symbols_ m) address
           = Some (public_symbol, public_address) ->
         nearest = None
         \/ (exists func fbase fsize,
                nearest = Some (func, fbase, fsize)
                /\ fbase < public_address) ->
         LookupAddress m frame inlined_frames
           = (fill_from_public_symbol frame public_symbol public_address,
              inlined_frames)
         /\ function_name result = PublicSymbol.name public_symbol
         /\ function_base result
            = U64.add (base_address code_module) public_address
         /\ is_multiple result = PublicSymbol.is_multiple public_symbol
         /\ source_file_name result = source_file_name frame
         /\ source_line result = source_line frame)
  /\ (uncovered ->
      StaticAddressMap.Retrieve (public_symbols_ m) address = None
      \/ (exists public_symbol public_address func fbase fsize,
             StaticAddressMap.Retrieve (public_symbols_ m) address
               = Some (public_symbol, public_address)
             /\ nearest = Some (func, fbase, fsize)
             /\ public_address <= fbase) ->
      LookupAddress m frame inlined_frames = (frame, inlined_frames)).
Proof.
  intros Hmod address nearest uncovered result.
  assert (Hbase : module_base frame = base_address code_module).
  { unfold module_base. rewrite Hmod. reflexivity. }
  assert (Haddr : U64.sub (instruction frame) (module_base frame) = address).
  { rewrite Hbase. reflexivity. }
  split; [|split].
  - intros func fbase fsize Hnear Hin.
    assert (Hres : result
      = match inlined_frames with
        | Some deque =>
            (ConstructInlineFrames m
               (fill_from_function m frame address func fbase)
               address (Func.inlines func) deque).1
        | None => fill_from_function m frame address func fbase
        end).
    { unfold result. rewrite <- Haddr.
      apply (LookupAddress_covered m frame inlined_frames func fbase
               fsize); rewrite Haddr; assumption. }
    pose proof (fill_from_function_names m frame address func fbase)
      as (Hn & Hb & Hm). rewrite Hbase in Hb.
    assert (Hkeep :
      function_name result = Func.name func
      /\ function_base result = U64.add (base_address code_module) fbase
      /\ is_multiple result = Func.is_multiple func
      /\ source_line_base result
         = source_line_base
             (fill_from_function m frame address func fbase)).
    { rewrite Hres. destruct inlined_frames as [deque|]; [|tauto].
      pose proof (ConstructInlineFrames_keeps_names m
        (fill_from_function m frame address func fbase)
        address (Func.inlines func) deque) as (K1 & K2 & K3 & K4).
      rewrite K1, K2, K3, K4. tauto. }
    destruct Hkeep as (K1 & K2 & K3 & K4).
    assert (Hplain :
      inlined_frames = None
      \/ StaticContainedRangeMap.RetrieveRanges (Func.inlines func) address
         = None ->
      result = fill_from_function m frame address func fbase).
    { intros [->|Hnone]; [exact Hres|]. rewrite Hres.
      destruct inlined_frames as [deque|]; [|reflexivity].
      rewrite ConstructInlineFrames_no_ranges by exact Hnone. reflexivity. }
    split; [exact K1|]. split; [exact K2|]. split; [exact K3|]. split.
    + intros line line_base line_size Hline. rewrite K4.
      unfold fill_from_function. rewrite Hline.
      split.
      * destruct (StaticMap.find (files_ m) (Line.source_file_id line));
          unfold module_base; simpl; rewrite Hmod; reflexivity.
      * intros Hno. rewrite (Hplain Hno).
        unfold fill_from_function. rewrite Hline.
        destruct (StaticMap.find (files_ m) (Line.source_file_id line));
          split; reflexivity.
    + intros Hline Hno. rewrite (Hplain Hno).
      unfold fill_from_function. rewrite Hline. repeat split; reflexivity.
  - intros public_symbol public_address Hunc Hpub Htight.
    assert (Heq : LookupAddress m frame inlined_frames
      = (fill_from_public_symbol frame public_symbol public_address,
         inlined_frames)).
    { unfold LookupAddress. rewrite Haddr. fold nearest. rewrite Hpub.
      destruct Htight as [Hnone|(func & fb & fs & Hnear & Hlt)].
      - rewrite Hnone. reflexivity.
      - rewrite Hnear, (Hunc func fb fs Hnear).
        apply Z.ltb_lt in Hlt. rewrite Hlt. reflexivity. }
    split; [exact Heq|]. unfold result. rewrite Heq.
    unfold fill_from_public_symbol, module_base. simpl. rewrite Hmod.
    repeat split; reflexivity.
  - intros Hunc Hcase.
    unfold LookupAddress. rewrite Haddr. fold nearest.
    destruct Hcase as [Hnone|(public_symbol & public_address & func & fb & fs
                               & Hpub & Hnear & Hle)].
    + rewrite Hnone.
      destruct nearest as [[[func fb] fs]|] eqn:Hnear; [|reflexivity].
      rewrite (Hunc func fb fs eq_refl). reflexivity.
    + rewrite Hpub, Hnear, (Hunc func fb fs Hnear).
      apply Z.ltb_ge in Hle. rewrite Hle. reflexivity.
Qed.

(** The cases on the sample module: [0x1009] inside [f] and its line
    record, [0x2004] past [f] with the public symbol [pub] above [f]'s
    base, [0x900] below [f] where only [early] is found, and [0x100]
    below every function and public symbol. *)
Lemma LookupAddress_resolution_witness :
  (function_name (LookupAddress Sample.resolver_module
                    (Sample.frame_at 0x1009) None).1 = "f"
   /\ function_base (LookupAddress Sample.resolver_module
                       (Sample.frame_at 0x1009) None).1 = 0x401000
   /\ source_line (LookupAddress Sample.resolver_module
                     (Sample.frame_at 0x1009) None).1 = 10)
  /\ function_name (LookupAddress Sample.resolver_module
                      (Sample.frame_at 0x2004) None).1 = "pub"
  /\ function_name (LookupAddress Sample.resolver_module
                      (Sample.frame_at 0x900) None).1 = "early"
  /\ LookupAddress Sample.resolver_module (Sample.frame_at 0x100) None
     = (Sample.frame_at 0x100, None).
Proof.
  split; [|split; [|split]].
  - destruct (LookupAddress_resolution Sample.resolver_module
                (Sample.frame_at 0x1009) Sample.test_app None eq_refl)
      as [Hfunc _].
    destruct (Hfunc Sample.f 0x1000 0x20 eq_refl eq_refl)
      as (Hname & Hbase & _ & Hline & _).
    destruct (Hline {| Line.source_file_id := 1; Line.line := 10 |}
                0x1000 0x10 eq_refl) as [_ Hsrc].
    destruct (Hsrc (or_introl eq_refl)) as [Hl _].
    split; [exact Hname|]. split; [exact Hbase|exact Hl].
  - destruct (LookupAddress_resolution Sample.resolver_module
                (Sample.frame_at 0x2004) Sample.test_app None eq_refl)
      as (_ & Hpub & _).
    refine (proj1 (proj2 (Hpub Sample.pub 0x2000 _ eq_refl _))).
    + intros func fbase fsize Hnear.
      injection Hnear as <- <- <-. reflexivity.
    + right. exists Sample.f, 0x1000, 0x20. split; [reflexivity|lia].
  - destruct (LookupAddress_resolution Sample.resolver_module
                (Sample.frame_at 0x900) Sample.test_app None eq_refl)
      as (_ & Hpub & _).
    refine (proj1 (proj2 (Hpub Sample.early 0x800 _ eq_refl _))).
    + intros func fbase fsize Hnear. discriminate Hnear.
    + left. reflexivity.
  - destruct (LookupAddress_resolution Sample.resolver_module
                (Sample.frame_at 0x100) Sample.test_app None eq_refl)
      as (_ & _ & Hnone).
    apply Hnone.
    + intros func fbase fsize Hnear. discriminate Hnear.
    + left. reflexivity.
Defined.

(** ** ConstructInlineFrames *)

Lemma push_inline_frames_app m frame address inline_ptrs deque :
  push_inline_frames m frame address inline_ptrs deque
  = deque ++ (new_inline_frame m frame address <$> inline_ptrs).
Proof.
  unfold push_inline_frames. revert deque.
  induction inline_ptrs as [|i rest IH]; intros deque; simpl.
  - rewrite app_nil_r. reflexivity.
  - rewrite IH, <- app_assoc. reflexivity.
Qed.

Lemma new_inline_frame_fields m frame address i :
  let new_frame := new_inline_frame m frame address i in
  file_line new_frame = call_site m frame i
  /\ function_name new_frame = inline_name m i
  /\ function_base new_frame
     = add_range_base address (Inline.inline_ranges i) (module_base frame)
  /\ trust new_frame = FRAME_TRUST_INLINE.
Proof.
  unfold new_inline_frame, file_line, call_site, inline_name.
  destruct (StaticMap.find (inline_origins_ m) (Inline.origin_id i));
    destruct (Inline.has_call_site_file_id i);
    try destruct (StaticMap.find (files_ m) (Inline.call_site_file_id i));
    simpl; repeat split; reflexivity.
Qed.

Lemma swap_file_line_length frames file number :
  length (swap_file_line frames file number) = length frames.
Proof.
  revert file number. induction frames as [|f rest IH]; intros; simpl.
  - reflexivity.
  - rewrite IH. reflexivity.
Qed.

(** The swap writes the file and the line only. *)
Lemma swap_file_line_keeps frames file number k f' :
  swap_file_line frames file number !! k = Some f' ->
  exists f, frames !! k = Some f
            /\ function_name f' = function_name f
            /\ function_base f' = function_base f
            /\ trust f' = trust f.
Proof.
  revert file number k.
  induction frames as [|f rest IH]; intros file number k H; simpl in H.
  - discriminate H.
  - destruct k as [|k]; simpl in H.
    + injection H as <-. exists f. simpl. repeat split; reflexivity.
    + apply IH in H. exact H.
Qed.

(** The front frame receives the saved pair. *)
Lemma swap_file_line_front f rest file number :
  exists f', swap_file_line (f :: rest) file number !! 0%nat = Some f'
             /\ file_line f' = (file, number).
Proof. eexists. simpl. split; reflexivity. Qed.

(** Every later frame receives what the frame before it held. *)
Lemma swap_file_line_next frames file number k g f' :
  frames !! k = Some g ->
  swap_file_line frames file number !! S k = Some f' ->
  file_line f' = file_line g.
Proof.
  revert file number k.
  induction frames as [|f rest IH]; intros file number k Hg H.
  - discriminate Hg.
  - destruct k as [|k]; simpl in Hg, H.
    + injection Hg as ->. destruct rest as [|f2 rest2]; simpl in H.
      * discriminate H.
      * injection H as <-. reflexivity.
    + eapply IH; eassumption.
Qed.

(** C4.  For a frame in a module, an address with a non-empty inline
    chain [innermost :: rest] (the vector [RetrieveRanges] fills,
    innermost entry first) and a deque that is empty on entry, [ConstructInlineFrames] appends one frame per
    inline in that order, each with trust [FRAME_TRUST_INLINE], the name
    of its origin and the base of its range; afterwards the enclosing
    frame's file and line are the call site of the outermost inline, the
    innermost inline frame's file and line are those the enclosing frame
    had before the call, and every other inline frame holds the call site
    of the inline next inside it. *)
Theorem ConstructInlineFrames_shift (m : FastModule) (frame : StackFrame)
    (code_module : CodeModule) (address : Z)
    (inline_map : StaticContainedRangeMap.t Inline.t)
    (innermost : Inline.t) (rest : list Inline.t) :
  module frame = Some code_module ->
  StaticContainedRangeMap.RetrieveRanges inline_map address
    = Some (innermost :: rest) ->
  let chain := innermost :: rest in
  let outermost := default innermost (last chain) in
  let frame' := (ConstructInlineFrames m frame address inline_map []).1 in
  let deque := (ConstructInlineFrames m frame address inline_map []).2 in
  length deque = length chain
  /\ (forall k i, chain !! k = Some i ->
        exists f, deque !! k = Some f
                  /\ trust f = FRAME_TRUST_INLINE
                  /\ function_name f = inline_name m i
                  /\ function_base f
                     = add_range_base address (Inline.inline_ranges i)
                                      (base_address code_module))
  /\ file_line frame' = call_site m frame outermost
  /\ (exists f, deque !! 0%nat = Some f /\ file_line f = file_line frame)
  /\ (forall k i f, chain !! k = Some i -> deque !! S k = Some f ->
        file_line f = call_site m frame i).
Proof.
  intros Hmod Hranges chain outermost frame' deque.
  assert (Hbase0 : module_base frame = base_address code_module).
  { unfold module_base. rewrite Hmod. reflexivity. }
  set (build := new_inline_frame m frame address).
  assert (Hlast : last (build <$> chain) = Some (build outermost)).
  { rewrite fmap_last. unfold outermost.
    destruct (last chain) as [o|] eqn:Ho; [reflexivity|].
    apply last_None in Ho. discriminate Ho. }
  assert (Hrun : ConstructInlineFrames m frame address inline_map []
    = (set_source_line (source_line (build outermost))
         (set_source_file_name (source_file_name (build outermost)) frame),
       swap_file_line (build <$> chain)
         (source_file_name frame) (source_line frame))).
  { unfold ConstructInlineFrames. rewrite Hranges.
    rewrite push_inline_frames_app. rewrite app_nil_l.
    fold build. fold chain. rewrite Hlast. reflexivity. }
  unfold frame', deque. rewrite Hrun. cbn [fst snd].
  split; [|split; [|split; [|split]]].
  - rewrite swap_file_line_length, length_fmap. reflexivity.
  - intros k i Hk.
    assert (Hb : (build <$> chain) !! k = Some (build i)).
    { rewrite list_lookup_fmap, Hk. reflexivity. }
    destruct (lookup_lt_is_Some_2
                (swap_file_line (build <$> chain) (source_file_name frame)
                                (source_line frame)) k) as [f Hf].
    { rewrite swap_file_line_length, length_fmap.
      apply lookup_lt_is_Some_1. eauto. }
    exists f. split; [exact Hf|].
    apply swap_file_line_keeps in Hf as (g & Hg & Hn & Hfb & Ht).
    rewrite Hb in Hg. injection Hg as <-.
    pose proof (new_inline_frame_fields m frame address i)
      as (_ & Hname & Hbase & Htrust).
    fold build in Hname, Hbase, Htrust. rewrite Hbase0 in Hbase.
    rewrite Ht, Hn, Hfb. auto.
  - pose proof (new_inline_frame_fields m frame address outermost)
      as (Hsite & _).
    fold build in Hsite. rewrite <- Hsite. reflexivity.
  - unfold chain. rewrite fmap_cons.
    destruct (swap_file_line_front (build innermost) (build <$> rest)
                (source_file_name frame) (source_line frame))
      as (f & Hf & Hfl).
    exists f. split; [exact Hf|exact Hfl].
  - intros k i f Hk Hf.
    assert (Hb : (build <$> chain) !! k = Some (build i)).
    { rewrite list_lookup_fmap, Hk. reflexivity. }
    rewrite (swap_file_line_next _ _ _ _ _ _ Hb Hf).
    pose proof (new_inline_frame_fields m frame address i) as (Hsite & _).
    exact Hsite.
Qed.

(** The chain at [0x1005] of the sample function: [inner_inline] inside
    [outer_inline].  The leaf location [a.cc:10] ends on the innermost
    inline frame and [f]'s frame gets the outer call site [a.cc:20]. *)
Lemma ConstructInlineFrames_shift_witness :
  file_line (ConstructInlineFrames Sample.resolver_module Sample.leaf 0x1005
               (Func.inlines Sample.f) []).1 = ("a.cc", 20)
  /\ exists f,
       (ConstructInlineFrames Sample.resolver_module Sample.leaf 0x1005
          (Func.inlines Sample.f) []).2 !! 0%nat = Some f
       /\ file_line f = ("a.cc", 10).
Proof.
  destruct (ConstructInlineFrames_shift Sample.resolver_module Sample.leaf
              Sample.test_app 0x1005 (Func.inlines Sample.f)
              Sample.inner_inline [Sample.outer_inline] eq_refl eq_refl)
    as (_ & _ & Houter & Hleaf & _).
  split; [exact Houter|exact Hleaf].
Defined.

(** ** FindCFIFrameInfo *)

Section CFIProperties.

Variable CFIFrameInfo : Type.
Variable CFIFrameInfo_new : CFIFrameInfo.
Variable ParseCFIRuleSet : string -> CFIFrameInfo -> bool * CFIFrameInfo.

Lemma filter_keys_above (deltas : StaticMap.t string) (low address k : Z) :
  address < k ->
  Forall (Z.lt k) (map fst deltas) ->
  filter (fun kv : Z * string => low <= kv.1 <= address) deltas = [].
Proof.
  intros Hk. induction deltas as [|[k' v] rest IH]; intros Hall.
  - reflexivity.
  - inversion Hall as [|? ? Hhead Htail]; subst. simpl in Hhead.
    rewrite filter_cons_False by (simpl; lia). apply IH. exact Htail.
Qed.

(** On a sorted run of entries all at or above [low], the loop of lines
    358-361 merges the entries up to [address] and no other. *)
Lemma apply_delta_rules_from (deltas : StaticMap.t string) (low address : Z)
    (rules : CFIFrameInfo) :
  StaticMap.sorted deltas ->
  Forall (fun kv : Z * string => low <= kv.1) deltas ->
  apply_delta_rules CFIFrameInfo ParseCFIRuleSet deltas address rules
  = fold_left (merge_delta CFIFrameInfo ParseCFIRuleSet)
      (filter (fun kv : Z * string => low <= kv.1 <= address) deltas) rules.
Proof.
  unfold StaticMap.sorted. revert rules.
  induction deltas as [|[k v] rest IH]; intros rules Hsorted Hlow.
  - reflexivity.
  - simpl in Hsorted. apply StronglySorted_inv in Hsorted as [Hrest Hhead].
    inversion Hlow as [|? ? Hk Hlow']; subst. simpl in Hk.
    simpl apply_delta_rules. destruct (k <=? address) eqn:Hle.
    + apply Z.leb_le in Hle.
      rewrite filter_cons_True by (simpl; lia). simpl fold_left.
      apply IH; assumption.
    + apply Z.leb_gt in Hle.
      rewrite filter_cons_False by (simpl; lia).
      rewrite (filter_keys_above rest low address k Hle Hhead). reflexivity.
Qed.

(** From [lower_bound(low)] of a sorted map, the loop merges the entries
    with keys from [low] through [address]. *)
Lemma apply_delta_rules_lower_bound (deltas : StaticMap.t string)
    (low address : Z) (rules : CFIFrameInfo) :
  StaticMap.sorted deltas ->
  apply_delta_rules CFIFrameInfo ParseCFIRuleSet
    (StaticMap.lower_bound deltas low) address rules
  = fold_left (merge_delta CFIFrameInfo ParseCFIRuleSet)
      (filter (fun kv : Z * string => low <= kv.1 <= address) deltas) rules.
Proof.
  intros Hsorted.
  induction deltas as [|[k v] rest IH].
  - reflexivity.
  - pose proof Hsorted as Hall. unfold StaticMap.sorted in Hall.
    simpl in Hall. apply StronglySorted_inv in Hall as [Hrest Hhead].
    simpl StaticMap.lower_bound. destruct (low <=? k) eqn:Hle.
    + apply Z.leb_le in Hle.
      apply apply_delta_rules_from; [exact Hsorted|].
      constructor; [simpl; lia|].
      clear -Hhead Hle. induction rest as [|[k' v'] rest IH]; [constructor|].
      inversion Hhead; subst. simpl in *. constructor; [simpl; lia|auto].
    + apply Z.leb_gt in Hle.
      rewrite filter_cons_False by (simpl; lia).
      apply IH. exact Hrest.
Qed.

Lemma filter_sorted (deltas : StaticMap.t string) (P : Z * string -> Prop)
    `{forall kv, Decision (P kv)} :
  StaticMap.sorted deltas -> StaticMap.sorted (filter P deltas).
Proof.
  unfold StaticMap.sorted.
  induction deltas as [|[k v] rest IH]; intros Hsorted; [constructor|].
  simpl in Hsorted. apply StronglySorted_inv in Hsorted as [Hrest Hhead].
  destruct (decide (P (k, v))) as [Hp|Hp].
  - rewrite filter_cons_True by exact Hp. simpl. constructor; [auto|].
    clear -Hhead. induction rest as [|[k' v'] rest IH]; [constructor|].
    inversion Hhead; subst.
    destruct (decide (P (k', v'))) as [Hp|Hp].
    + rewrite filter_cons_True by exact Hp. constructor; auto.
    + rewrite filter_cons_False by exact Hp. auto.
  - rewrite filter_cons_False by exact Hp. auto.
Qed.

(** C5.  For a frame in a module whose delta-rule map has its keys in
    increasing order: [FindCFIFrameInfo] returns nothing when no range of
    [cfi_initial_rules_] covers the module-relative address; when one
    does and its rule set parses, the result is that rule set with the
    delta rules merged whose keys lie from the range's base through the
    address, in increasing key order, and no delta rule beyond the
    address; when the initial rule set does not parse the result is
    nothing. *)
Theorem FindCFIFrameInfo_merges_deltas (m : FastModule) (frame : StackFrame)
    (code_module : CodeModule) :
  module frame = Some code_module ->
  StaticMap.sorted (cfi_delta_rules_ m) ->
  let address := U64.sub (instruction frame) (base_address code_module) in
  let found :=
    FindCFIFrameInfo CFIFrameInfo CFIFrameInfo_new ParseCFIRuleSet m frame in
  (StaticRangeMap.RetrieveRange (cfi_initial_rules_ m) address = None ->
   found = None)
  /\ (forall initial_rules initial_base initial_size parsed rules,
        StaticRangeMap.RetrieveRange (cfi_initial_rules_ m) address
          = Some (initial_rules, initial_base, initial_size) ->
        ParseCFIRuleSet initial_rules CFIFrameInfo_new = (parsed, rules) ->
        let merged :=
          filter (fun kv : Z * string => initial_base <= kv.1 <= address)
                 (cfi_delta_rules_ m) in
        (parsed = true -> found = Some (fold_left (merge_delta CFIFrameInfo ParseCFIRuleSet) merged rules))
        /\ (parsed = false -> found = None)
        /\ StaticMap.sorted merged).
Proof.
  intros Hmod Hsorted address found.
  assert (Haddr : U64.sub (instruction frame) (module_base frame) = address).
  { unfold module_base. rewrite Hmod. reflexivity. }
  unfold found, FindCFIFrameInfo. rewrite Haddr.
  split.
  - intros ->. reflexivity.
  - intros initial_rules initial_base initial_size parsed rules -> ->.
    split; [|split].
    + intros ->. simpl. f_equal.
      apply apply_delta_rules_lower_bound. exact Hsorted.
    + intros ->. reflexivity.
    + apply filter_sorted. exact Hsorted.
Qed.

End CFIProperties.

(** At [0x1005] of the sample module the initial rules of
    [0x1000, 0x1020) are followed by the deltas at [0x1001] and [0x1004];
    the delta at [0x1010], inside the range but past the address, and the
    deltas outside the range are left out. *)
Lemma FindCFIFrameInfo_merges_deltas_witness :
  FindCFIFrameInfo (list string) [] Sample.collect_rules
    Sample.resolver_module (Sample.frame_at 0x1005)
  = Some [".cfa: $esp 4 +"; ".cfa: $esp 8 +"; "$ebp: .cfa 8 - ^"].
Proof.
  assert (Hsorted : StaticMap.sorted (cfi_delta_rules_ Sample.resolver_module)).
  { unfold StaticMap.sorted. simpl.
    repeat (constructor; [|repeat constructor; lia]). constructor. }
  destruct (FindCFIFrameInfo_merges_deltas (list string) []
              Sample.collect_rules Sample.resolver_module
              (Sample.frame_at 0x1005) Sample.test_app eq_refl Hsorted)
    as [_ Hcover].
  destruct (Hcover ".cfa: $esp 4 +" 0x1000 0x20 true [".cfa: $esp 4 +"]
              eq_refl eq_refl) as [Hfound _].
  exact (Hfound eq_refl).
Defined.

(** ** FindWindowsFrameInfo *)

(** When neither a [STACK_INFO_FRAME_DATA] nor a [STACK_INFO_FPO] record
    covers the address and no function contains it, line 329 is reached
    and the function returns [nullptr], whatever lines 323-327 stored in
    [result]. *)
Lemma FindWindowsFrameInfo_uncovered_is_null
    (STACK_INFO_FRAME_DATA STACK_INFO_FPO : nat) (VALID_PARAMETER_SIZE : Z)
    (WindowsFrameInfo_new : WindowsFrameInfo.t)
    (m : FastModule) (frame : StackFrame) :
  let address := U64.sub (instruction frame) (module_base frame) in
  RetrieveFrameInfo m STACK_INFO_FRAME_DATA address = None ->
  RetrieveFrameInfo m STACK_INFO_FPO address = None ->
  (forall func fbase fsize,
      StaticRangeMap.RetrieveNearestRange (functions_ m) address
        = Some (func, fbase, fsize) ->
      range_contains address fbase fsize = false) ->
  FindWindowsFrameInfo STACK_INFO_FRAME_DATA STACK_INFO_FPO
    VALID_PARAMETER_SIZE WindowsFrameInfo_new m frame = None.
Proof.
  intros address Hdata Hfpo Hunc.
  unfold FindWindowsFrameInfo, FindWindowsFrameInfo_run. fold address.
  rewrite Hdata, Hfpo.
  destruct (StaticRangeMap.RetrieveNearestRange (functions_ m) address)
    as [[[func fbase] fsize]|] eqn:Hnear; [|reflexivity].
  rewrite (Hunc func fbase fsize eq_refl). reflexivity.
Qed.

Lemma Sample_no_frame_info (type : nat) (address : Z) :
  RetrieveFrameInfo Sample.resolver_module type address = None.
Proof.
  unfold RetrieveFrameInfo. simpl.
  do 5 (destruct type as [|type]; [reflexivity|]). reflexivity.
Qed.

(** C3, on the code.  The sample module has no [STACK WIN] record; the
    address [0x2004] lies past the function [f] (base [0x1000]) and the
    public symbol [pub] at [0x2000], with parameter size 8, is the
    tightest match.  Whatever the two enumerators, the validity bit and
    the default-constructed record are, the local [result] carries the
    parameter size 8 at the [return], and the function returns [nullptr]. *)
Theorem FindWindowsFrameInfo_public_symbol_result_dropped :
  forall (STACK_INFO_FRAME_DATA STACK_INFO_FPO : nat)
         (VALID_PARAMETER_SIZE : Z)
         (WindowsFrameInfo_new : WindowsFrameInfo.t),
    StaticAddressMap.Retrieve (public_symbols_ Sample.resolver_module) 0x2004
      = Some (Sample.pub, 0x2000)
    /\ FindWindowsFrameInfo_run STACK_INFO_FRAME_DATA STACK_INFO_FPO
         VALID_PARAMETER_SIZE WindowsFrameInfo_new
         Sample.resolver_module (Sample.frame_at 0x2004)
       = (None, WindowsFrameInfo.set_parameter_size 8 WindowsFrameInfo_new)
    /\ FindWindowsFrameInfo STACK_INFO_FRAME_DATA STACK_INFO_FPO
         VALID_PARAMETER_SIZE WindowsFrameInfo_new
         Sample.resolver_module (Sample.frame_at 0x2004)
       = None.
Proof.
  intros data fpo valid_bit fresh.
  assert (Hrun : FindWindowsFrameInfo_run data fpo valid_bit fresh
                   Sample.resolver_module (Sample.frame_at 0x2004)
                 = (None, WindowsFrameInfo.set_parameter_size 8 fresh)).
  { unfold FindWindowsFrameInfo_run.
    change (U64.sub (instruction (Sample.frame_at 0x2004))
                    (module_base (Sample.frame_at 0x2004))) with 0x2004.
    rewrite !Sample_no_frame_info. reflexivity. }
  split; [reflexivity|]. split; [exact Hrun|].
  unfold FindWindowsFrameInfo. rewrite Hrun. reflexivity.
Qed.

(** ** LoadMapFromMemory *)

Lemma U64_wrap_add_l a b : U64.wrap (U64.wrap a + b) = U64.wrap (a + b).
Proof.
  unfold U64.wrap. apply Z.add_mod_idemp_l. unfold U64.modulus. lia.
Qed.

Lemma U64_wrap_add_r a b : U64.wrap (a + U64.wrap b) = U64.wrap (a + b).
Proof.
  unfold U64.wrap. apply Z.add_mod_idemp_r. unfold U64.modulus. lia.
Qed.

Lemma byte_at_nonneg buffer i : 0 <= byte_at buffer i.
Proof. unfold byte_at. apply N2Z.is_nonneg. Qed.

Lemma digits_nonneg (digit : nat -> Z) (js : list nat) :
  (forall j, 0 <= digit j) ->
  0 <= fold_right (fun b acc => b + 256 * acc) 0 (map digit js).
Proof.
  intros Hdigit. induction js as [|j rest IH]; simpl.
  - lia.
  - specialize (Hdigit j). lia.
Qed.

Lemma read_uint64_nonneg mem_buffer i : 0 <= read_uint64 mem_buffer i.
Proof.
  unfold read_uint64. apply digits_nonneg.
  intros j. apply byte_at_nonneg.
Qed.

Lemma sum_sizes_nonneg map_sizes start count :
  (forall i, 0 <= map_sizes i) -> 0 <= sum_sizes map_sizes start count.
Proof.
  intros Hpos. revert start.
  induction count as [|count IH]; intros start; simpl.
  - lia.
  - specialize (IH (S start)). specialize (Hpos start). lia.
Qed.

Lemma sum_sizes_snoc map_sizes start count :
  sum_sizes map_sizes start (S count)
  = sum_sizes map_sizes start count + map_sizes (start + count)%nat.
Proof.
  revert start. induction count as [|count IH]; intros start.
  - simpl. rewrite Nat.add_0_r. lia.
  - change (sum_sizes map_sizes start (S (S count)))
      with (map_sizes start + sum_sizes map_sizes (S start) (S count)).
    rewrite IH. simpl sum_sizes.
    replace (S start + count)%nat with (start + S count)%nat by lia. lia.
Qed.

(** [offsets[i + j]] as the loop of lines 243-245 fills it. *)
Lemma fill_offsets_nth map_sizes count i previous j :
  (j < count)%nat ->
  (1 <= i)%nat ->
  nth j (fill_offsets map_sizes count i previous) 0
  = U64.wrap (previous + sum_sizes map_sizes (i - 1) (S j)).
Proof.
  revert i previous j.
  induction count as [|count IH]; intros i previous j Hj Hi; [lia|].
  simpl fill_offsets. destruct j as [|j].
  - simpl. unfold U64.add. f_equal. lia.
  - simpl nth. rewrite IH by lia. unfold U64.add.
    rewrite U64_wrap_add_l.
    replace (S i - 1)%nat with (S (i - 1)) by lia.
    change (sum_sizes map_sizes (i - 1) (S (S j)))
      with (map_sizes (i - 1)%nat
            + sum_sizes map_sizes (S (i - 1)) (S j)).
    f_equal. lia.
Qed.

Section LoadMapProperties.

Variable STACK_INFO_LAST : nat.

(** The size the loader expects is the declared total plus one, reduced
    to 64 bits. *)
Lemma expected_size_of_total (memory_buffer : list byte) :
  8 * Z.of_nat (kNumberMaps_ STACK_INFO_LAST) < U32.modulus ->
  expected_size_of STACK_INFO_LAST (read_uint64 (drop 1 memory_buffer))
  = U64.wrap (declared_total STACK_INFO_LAST memory_buffer + 1).
Proof.
  intros Hheader.
  unfold expected_size_of, offsets_of, declared_total.
  set (map_sizes := read_uint64 (drop 1 memory_buffer)).
  set (k := kNumberMaps_ STACK_INFO_LAST) in *.
  assert (Hk : (6 <= k)%nat) by (unfold k, kNumberMaps_; lia).
  assert (Hwrap : U32.wrap (Z.of_nat k * 8) = 8 * Z.of_nat k).
  { unfold U32.wrap. rewrite Z.mod_small; lia. }
  rewrite Hwrap.
  replace (k - 1)%nat with (S (k - 2)) at 1 by lia.
  cbn [nth]. rewrite fill_offsets_nth by lia.
  unfold U64.add.
  rewrite U64_wrap_add_r, U64_wrap_add_l, <- Z.add_assoc, U64_wrap_add_l.
  f_equal.
  assert (Hsum : sum_sizes map_sizes 0 k
                 = sum_sizes map_sizes 0 (k - 1) + map_sizes (k - 1)%nat).
  { pose proof (sum_sizes_snoc map_sizes 0 (k - 1)) as Hsnoc.
    replace (S (k - 1)) with k in Hsnoc by lia. exact Hsnoc. }
  change (1 - 1)%nat with 0%nat.
  replace (S (k - 2)) with (k - 1)%nat by lia.
  rewrite Hsum. lia.
Qed.

(** C2, as the code has it.  Writing [E] for the declared total
    [1 + header + Σ sizes] plus one (the image's own terminating NUL),
    reduced to 64 bits as lines 244-247 compute it: for a buffer that
    holds the flag byte and the header, a header size that fits
    [unsigned int] and a [memory_buffer_size] of 64 bits,
    [LoadMapFromMemory] returns [true] exactly when [memory_buffer_size]
    is [E] or the 64-bit [E + 1] (one further NUL), whatever sizes the
    header declares; when the declared total stays two bytes below
    [2^64] these are the declared total plus one and plus two; when it
    returns [false] the maps of the module are the views they were
    before; a null buffer is refused with the module untouched. *)
Theorem LoadMapFromMemory_size_check (m : ModuleViews)
    (memory_buffer : list byte) (memory_buffer_size : Z) :
  8 * Z.of_nat (kNumberMaps_ STACK_INFO_LAST) < U32.modulus ->
  1 + 8 * Z.of_nat (kNumberMaps_ STACK_INFO_LAST)
    <= Z.of_nat (length memory_buffer) ->
  U64.in_range memory_buffer_size ->
  let total := declared_total STACK_INFO_LAST memory_buffer in
  let expected := U64.wrap (total + 1) in
  let loaded :=
    LoadMapFromMemory STACK_INFO_LAST m (Some memory_buffer)
                      memory_buffer_size in
  (loaded.1 = true
   <-> memory_buffer_size = expected
       \/ memory_buffer_size = U64.wrap (expected + 1))
  /\ (total + 2 < U64.modulus ->
      (loaded.1 = true
       <-> memory_buffer_size = total + 1 \/ memory_buffer_size = total + 2))
  /\ (loaded.1 = false -> same_maps m loaded.2)
  /\ LoadMapFromMemory STACK_INFO_LAST m None memory_buffer_size = (false, m).
Proof.
  intros Hheader Hlen Hsize total expected loaded.
  assert (Hpos : 0 <= total).
  { unfold total, declared_total.
    pose proof (sum_sizes_nonneg (read_uint64 (drop 1 memory_buffer)) 0
                  (kNumberMaps_ STACK_INFO_LAST)
                  (read_uint64_nonneg (drop 1 memory_buffer))). lia. }
  assert (Hexp :
    expected_size_of STACK_INFO_LAST (read_uint64 (drop 1 memory_buffer))
    = expected).
  { rewrite expected_size_of_total by exact Hheader. reflexivity. }
  assert (Hrange : U64.in_range expected) by apply U64_wrap_range.
  assert (Hnext : U64.sub memory_buffer_size 1 = expected
                  <-> memory_buffer_size = U64.wrap (expected + 1)).
  { unfold U64.in_range in Hsize, Hrange.
    assert (Hw : (expected + 1 < U64.modulus
                  /\ U64.wrap (expected + 1) = expected + 1)
                 \/ (expected + 1 = U64.modulus
                     /\ U64.wrap (expected + 1) = 0)).
    { destruct (Z_lt_dec (expected + 1) U64.modulus) as [Hlt|Hge].
      - left. split; [exact Hlt|]. apply U64_wrap_small.
        unfold U64.in_range. lia.
      - right. assert (Heq : expected + 1 = U64.modulus) by lia.
        split; [exact Heq|]. rewrite Heq. reflexivity. }
    destruct (Z.eq_dec memory_buffer_size 0) as [->|Hnz].
    - change (U64.sub 0 1) with (U64.modulus - 1). lia.
    - rewrite U64_sub_no_borrow
        by (unfold U64.in_range, U64.modulus in *; lia).
      lia. }
  assert (Hiff : loaded.1 = true
                 <-> memory_buffer_size = expected
                     \/ memory_buffer_size = U64.wrap (expected + 1)).
  { unfold loaded, LoadMapFromMemory. rewrite Hexp.
    destruct (Z.eqb_spec expected memory_buffer_size) as [He|Hne];
      destruct (Z.eqb_spec expected (U64.sub memory_buffer_size 1))
        as [He'|Hne']; simpl; split; intros H; try reflexivity;
      try discriminate H; try (left; congruence);
      try (right; apply Hnext; congruence).
    destruct H as [H|H]; [congruence|]. apply Hnext in H. congruence. }
  split; [exact Hiff|]. split; [|split; [|reflexivity]].
  - intros Htotal.
    assert (He : expected = total + 1).
    { apply U64_wrap_small. unfold U64.in_range. lia. }
    assert (He' : U64.wrap (expected + 1) = total + 2).
    { rewrite He. replace (total + 1 + 1) with (total + 2) by lia.
      apply U64_wrap_small. unfold U64.in_range. lia. }
    rewrite Hiff, He', He. reflexivity.
  - unfold loaded, LoadMapFromMemory.
    destruct (negb _ && negb _); simpl; [|discriminate].
    intros _. unfold same_maps. simpl. repeat split; reflexivity.
Qed.

End LoadMapProperties.

(** The sample image, 93 bytes for a declared total of 92, is accepted;
    so is the image of 89 bytes whose header declares [2^64 - 1] bytes
    for its first map, the declared total [2^64 + 88] plus one being 89
    in 64 bits. *)
Lemma LoadMapFromMemory_size_check_witness :
  (LoadMapFromMemory 5 Sample.unloaded (Some Sample.image) 93).1 = true
  /\ (LoadMapFromMemory 5 Sample.unloaded
        (Some Sample.image_with_wrapping_size) 89).1 = true.
Proof.
  assert (Hheader : 8 * Z.of_nat (kNumberMaps_ 5) < U32.modulus)
    by (vm_compute; reflexivity).
  split.
  - assert (Hlen : 1 + 8 * Z.of_nat (kNumberMaps_ 5)
                   <= Z.of_nat (length Sample.image))
      by (vm_compute; discriminate).
    assert (Hsize : U64.in_range 93)
      by (unfold U64.in_range, U64.modulus; lia).
    destruct (LoadMapFromMemory_size_check 5 Sample.unloaded Sample.image 93
                Hheader Hlen Hsize) as (_ & Hplain & _).
    apply Hplain; [vm_compute; reflexivity|]. left. vm_compute. reflexivity.
  - assert (Hlen : 1 + 8 * Z.of_nat (kNumberMaps_ 5)
                   <= Z.of_nat (length Sample.image_with_wrapping_size))
      by (vm_compute; discriminate).
    assert (Hsize : U64.in_range 89)
      by (unfold U64.in_range, U64.modulus; lia).
    destruct (LoadMapFromMemory_size_check 5 Sample.unloaded
                Sample.image_with_wrapping_size 89 Hheader Hlen Hsize)
      as (Hiff & _).
    apply Hiff. left. vm_compute. reflexivity.
Defined.

(** C2 as the specification words it fails on the code: a buffer of
    exactly [1 + header + Σ sizes] bytes (89 bytes, eleven empty maps) is
    one the specification accepts and [LoadMapFromMemory] refuses. *)
Lemma LoadMapFromMemory_refuses_declared_total :
  Z.of_nat (length Sample.image_without_terminator) = 89
  /\ ~ ((LoadMapFromMemory 5 Sample.unloaded
           (Some Sample.image_without_terminator) 89).1 = true
        <-> spec_accepts 5 Sample.image_without_terminator 89).
Proof.
  split; [reflexivity|].
  intros [_ Hback].
  assert (Hspec : spec_accepts 5 Sample.image_without_terminator 89).
  { left. vm_compute. reflexivity. }
  specialize (Hback Hspec). vm_compute in Hback. discriminate Hback.
Qed.

(** ** The address-list walker *)

Lemma AddressList_at_end (w : AddressList.t) :
  AddressList.next_frame_index_ w = AddressList.frame_count_ w ->
  AddressList.set_next_frame_index (AddressList.frame_count_ w) w = w.
Proof. destruct w as [si mem fr n i]. simpl. intros ->. reflexivity. Qed.

(** From index [next_frame_index_] on, [GetCallerFrame] hands out the
    remaining addresses one by one, given fuel for each of them. *)
Lemma AddressList_callers (fuel : nat) (w : AddressList.t)
    (stack : list StackFrame) (stack_scan_allowed : bool) :
  AddressList.frame_count_ w = length (AddressList.frames_ w) ->
  (AddressList.next_frame_index_ w <= AddressList.frame_count_ w)%nat ->
  (AddressList.frame_count_ w - AddressList.next_frame_index_ w <= fuel)%nat ->
  AddressList.callers fuel w stack stack_scan_allowed
  = (stack ++ (AddressList.prewalked_frame
                 <$> drop (AddressList.next_frame_index_ w)
                          (AddressList.frames_ w)),
     AddressList.set_next_frame_index (AddressList.frame_count_ w) w).
Proof.
  revert w stack.
  induction fuel as [|fuel IH]; intros w stack Hcount Hnext Hfuel.
  - assert (Hend : AddressList.next_frame_index_ w
                   = AddressList.frame_count_ w) by lia.
    unfold AddressList.callers, AddressList.GetCallerFrame.
    rewrite (proj2 (Nat.leb_le _ _)) by lia.
    rewrite drop_ge by lia. rewrite app_nil_r, AddressList_at_end by exact Hend.
    reflexivity.
  - simpl AddressList.callers. unfold AddressList.GetCallerFrame.
    destruct (Nat.leb_spec (AddressList.frame_count_ w)
                           (AddressList.next_frame_index_ w)) as [Hle|Hlt].
    + assert (Hend : AddressList.next_frame_index_ w
                     = AddressList.frame_count_ w) by lia.
      rewrite drop_ge by lia.
      rewrite app_nil_r, AddressList_at_end by exact Hend. reflexivity.
    + rewrite IH; simpl; try lia; try exact Hcount.
      destruct (lookup_lt_is_Some_2 (AddressList.frames_ w)
                  (AddressList.next_frame_index_ w)) as [a Ha]; [lia|].
      rewrite (drop_S _ _ _ Ha), fmap_cons, <- app_assoc. simpl.
      unfold AddressList.frame_at. rewrite nth_lookup, Ha. reflexivity.
Qed.

(** C9.  For a non-empty array of [frame_count] addresses the walker
    hands out exactly one frame per address, in the order of the array,
    each holding its address as [instruction] and [FRAME_TRUST_PREWALKED]
    as [trust] (any fuel from [frame_count - 1] on gives all of them);
    once they are consumed [GetCallerFrame] returns no frame; the walker
    is built without stack memory and has none at the end, and what
    [GetCallerFrame] returns does not depend on the stack or on
    [stack_scan_allowed]. *)
Theorem AddressList_one_frame_per_address (frames : list Z)
    (frame_count fuel : nat) (stack_scan_allowed : bool) :
  frame_count = length frames ->
  (0 < frame_count)%nat ->
  (frame_count <= S fuel)%nat ->
  let walker := AddressList.new frames frame_count in
  let walked := AddressList.frames_of fuel walker stack_scan_allowed in
  walked.1 = AddressList.prewalked_frame <$> frames
  /\ length walked.1 = frame_count
  /\ (forall i address,
        frames !! i = Some address ->
        exists frame, walked.1 !! i = Some frame
                      /\ instruction frame = address
                      /\ trust frame = FRAME_TRUST_PREWALKED)
  /\ (forall stack scan,
        (AddressList.GetCallerFrame walked.2 stack scan).1 = None)
  /\ AddressList.memory_ walker = None
  /\ AddressList.memory_ walked.2 = None
  /\ (forall (w : AddressList.t) stack scan,
        AddressList.GetCallerFrame w stack scan
        = AddressList.GetCallerFrame w [] false).
Proof.
  intros Hcount Hpos Hfuel walker walked.
  assert (Hwalked : walked
    = (AddressList.prewalked_frame <$> frames,
       AddressList.set_next_frame_index frame_count walker)).
  { unfold walked, AddressList.frames_of, AddressList.GetContextFrame.
    simpl AddressList.frame_count_.
    rewrite (proj2 (Nat.eqb_neq _ _)) by lia.
    rewrite AddressList_callers; simpl; try lia; try exact Hcount.
    destruct frames as [|a rest]; [simpl in Hcount; lia|].
    unfold AddressList.frame_at. simpl. rewrite drop_0. reflexivity. }
  rewrite Hwalked. cbn [fst snd].
  split; [reflexivity|]. split; [rewrite length_fmap; lia|].
  split; [|split; [|split; [|split]]].
  - intros i address Hi. exists (AddressList.prewalked_frame address).
    rewrite list_lookup_fmap, Hi. repeat split; reflexivity.
  - intros stack scan. unfold AddressList.GetCallerFrame. simpl.
    rewrite (proj2 (Nat.leb_le _ _)) by lia. reflexivity.
  - reflexivity.
  - reflexivity.
  - intros w stack scan. reflexivity.
Qed.

(** The four addresses of the sample, with fuel to spare. *)
Lemma AddressList_one_frame_per_address_witness :
  (AddressList.frames_of 10 (AddressList.new Sample.addresses 4) true).1
  = AddressList.prewalked_frame <$> Sample.addresses.
Proof.
  refine (proj1 (AddressList_one_frame_per_address Sample.addresses 4 10 true
                   eq_refl _ _)); lia.
Defined.

(** C10.  With [frame_count = 0], [GetContextFrame] returns no frame and
    the walk yields no frame at all, whatever [frames] points to and
    whatever the fuel. *)
Theorem AddressList_empty (frames : list Z) (fuel : nat)
    (stack_scan_allowed : bool) :
  (AddressList.GetContextFrame (AddressList.new frames 0)).1 = None
  /\ (AddressList.frames_of fuel (AddressList.new frames 0)
        stack_scan_allowed).1 = [].
Proof. split; reflexivity. Qed.

(** ** The processor driver *)

Module ProcessorProperties.
Import Processor.

Lemma frugal_ret : frugal (ret ()).
Proof. intros s Hs. simpl. split; [apply Hs|intros _; exact Hs]. Qed.

Lemma frugal_bind (c : Sym unit) (k : unit -> Sym unit) :
  frugal c -> (forall x, frugal (k x)) -> frugal (bind c k).
Proof.
  intros Hc Hk s Hs. unfold bind.
  destruct (Hc s Hs) as [Hnodup Hnext].
  destruct (c s) as [[[]|] s'] eqn:Hrun; simpl in *.
  - apply Hk. apply Hnext. reflexivity.
  - split; [exact Hnodup|discriminate].
Qed.

Lemma frugal_load_symbols supplier code_file :
  frugal (load_symbols supplier code_file).
Proof.
  intros s [Hnodup Hsub]. unfold load_symbols.
  destruct (decide (code_file ∈ requested s)) as [Hin|Hout]; simpl.
  - split; [exact Hnodup|intros _; split; assumption].
  - assert (Hfresh : NoDup (calls s ++ [code_file])).
    { apply NoDup_app. split; [exact Hnodup|]. split.
      - intros c Hc Hc'. apply list_elem_of_singleton in Hc'. subst c.
        apply Hout, Hsub, Hc.
      - apply NoDup_singleton. }
    destruct (supplier code_file); simpl; (split; [exact Hfresh|]);
      try discriminate; intros _; (split; [exact Hfresh|]);
      intros c Hc; simpl; apply elem_of_app in Hc as [Hc|Hc];
      try (apply list_elem_of_singleton in Hc; subst c); set_solver.
Qed.

Lemma frugal_symbolize_frame supplier frame_module :
  frugal (symbolize_frame supplier frame_module).
Proof.
  destruct supplier as [supplier|], frame_module as [code_file|]; simpl;
    auto using frugal_ret, frugal_load_symbols.
Qed.

Lemma frugal_walk_frames supplier frames :
  frugal (walk_frames supplier frames).
Proof.
  induction frames as [|frame rest IH]; simpl.
  - apply frugal_ret.
  - apply frugal_bind; [apply frugal_symbolize_frame|intros _; exact IH].
Qed.

Lemma frugal_walk_threads supplier threads :
  frugal (walk_threads supplier threads).
Proof.
  induction threads as [|thread rest IH]; simpl.
  - apply frugal_ret.
  - apply frugal_bind; [apply frugal_walk_frames|intros _; exact IH].
Qed.

Lemma lookup_count_app code_file log log' :
  lookup_count code_file (log ++ log')
  = (lookup_count code_file log + lookup_count code_file log')%nat.
Proof. unfold lookup_count. rewrite filter_app, length_app. reflexivity. Qed.

Lemma lookup_count_absent code_file log :
  code_file ∉ log -> lookup_count code_file log = 0%nat.
Proof.
  unfold lookup_count. induction log as [|c log IH]; intros Hout.
  - reflexivity.
  - apply not_elem_of_cons in Hout as [Hne Hout].
    rewrite filter_cons_False by (intros ->; apply Hne; reflexivity).
    apply IH. exact Hout.
Qed.

Lemma lookup_count_NoDup code_file log :
  NoDup log -> (lookup_count code_file log <= 1)%nat.
Proof.
  unfold lookup_count. induction 1 as [|c log Hc Hnodup IH]; simpl.
  - lia.
  - destruct (decide (c = code_file)) as [->|Hne].
    + rewrite filter_cons_True by reflexivity. simpl.
      pose proof (lookup_count_absent code_file log Hc) as Hnone.
      unfold lookup_count in Hnone. lia.
    + rewrite filter_cons_False by exact Hne. exact IH.
Qed.

(** What one [Process] call adds to the supplier's log: no module twice,
    and the same calls on any processor with the same supplier. *)
Lemma Process_lookups (p : MinidumpProcessor) (dump : Minidump) :
  exists made,
    NoDup made
    /\ forall log,
         Process {| supplier_ := supplier_ p; lookups := log |} dump
         = ((Process p dump).1,
            {| supplier_ := supplier_ p; lookups := log ++ made |}).
Proof.
  unfold Process.
  destruct (Read dump); simpl;
    [|exists []; split; [constructor|intros log; rewrite app_nil_r; reflexivity]].
  destruct (header dump);
    [|exists []; split; [constructor|intros log; rewrite app_nil_r; reflexivity]].
  destruct (GetThreadList dump) as [threads|];
    [|exists []; split; [constructor|intros log; rewrite app_nil_r; reflexivity]].
  pose proof (frugal_walk_threads (supplier_ p) threads
                {| requested := ∅; calls := [] |}) as [Hnodup _].
  { split; [constructor|]. intros c Hc. simpl in Hc. inversion Hc. }
  destruct (walk_threads (supplier_ p) threads
              {| requested := ∅; calls := [] |}) as [[[]|] s] eqn:Hrun;
    exists (calls s); (split; [exact Hnodup|]); intros log; reflexivity.
Qed.

(** C7.  In one [Process] call the supplier's [GetCStringSymbolData] is
    invoked at most once for a module, in the first call on a dump and in
    a second call on the same dump alike; a module that was looked up
    during the first call is looked up again during the second, twice in
    total; and the second call returns what the first returned. *)
Theorem Process_lookup_counts (p : MinidumpProcessor) (dump : Minidump)
    (code_file : string) :
  let first := Process p dump in
  let second := Process first.2 dump in
  let before := lookup_count code_file (lookups p) in
  (lookup_count code_file (lookups first.2) <= before + 1)%nat
  /\ (lookup_count code_file (lookups second.2)
      <= lookup_count code_file (lookups first.2) + 1)%nat
  /\ (lookup_count code_file (lookups first.2) = (before + 1)%nat ->
      lookup_count code_file (lookups second.2) = (before + 2)%nat)
  /\ second.1 = first.1.
Proof.
  intros first second before.
  destruct (Process_lookups p dump) as (made & Hnodup & Hrun).
  assert (Hp : p = {| supplier_ := supplier_ p; lookups := lookups p |})
    by (destruct p; reflexivity).
  assert (Hfirst : first
    = ((Process p dump).1,
       {| supplier_ := supplier_ p; lookups := lookups p ++ made |})).
  { unfold first. rewrite Hp at 1. apply Hrun. }
  assert (Hsecond : second
    = ((Process p dump).1,
       {| supplier_ := supplier_ p;
          lookups := (lookups p ++ made) ++ made |})).
  { unfold second. rewrite Hfirst. cbn [snd]. apply Hrun. }
  rewrite Hsecond, Hfirst. cbn [fst snd lookups].
  rewrite !lookup_count_app. fold before.
  pose proof (lookup_count_NoDup code_file made Hnodup).
  repeat split; lia.
Qed.

(** The sample dump processed twice with a supplier that finds nothing:
    [test_app], the module of three frames, is asked for once per call. *)
Lemma Process_lookup_counts_witness :
  lookup_count "c:\test_app.exe"
    (lookups
       (Process
          (Process {| supplier_ := Some Sample.no_symbols; lookups := [] |}
                   Sample.dump).2
          Sample.dump).2)
  = 2%nat.
Proof.
  destruct (Process_lookup_counts
              {| supplier_ := Some Sample.no_symbols; lookups := [] |}
              Sample.dump "c:\test_app.exe") as (_ & _ & Htwice & _).
  apply Htwice. vm_compute. reflexivity.
Defined.

Lemma walk_frames_completes supplier frames s :
  uninterrupted supplier s ->
  (walk_frames (Some supplier) frames s).1 = Some () ->
  uninterrupted supplier (walk_frames (Some supplier) frames s).2
  /\ forall code_file,
       Some code_file ∈ frames -> supplier code_file <> INTERRUPT.
Proof.
  revert s. induction frames as [|frame rest IH]; intros s Hs Hdone.
  - split; [exact Hs|]. intros code_file Hin. inversion Hin.
  - cbn [walk_frames] in Hdone |- *. unfold bind in Hdone |- *.
    destruct (symbolize_frame (Some supplier) frame s) as [[[]|] s1] eqn:Hstep;
      [|simpl in Hdone; discriminate Hdone].
    assert (Hstep' : uninterrupted supplier s1
                     /\ forall c, frame = Some c -> supplier c <> INTERRUPT).
    { destruct frame as [c|]; simpl in Hstep.
      - unfold load_symbols in Hstep.
        destruct (decide (c ∈ requested s)) as [Hin|Hout].
        + injection Hstep as <-. split; [exact Hs|].
          intros c' [= <-]. apply Hs, Hin.
        + destruct (supplier c) eqn:Hsup; try discriminate Hstep;
            injection Hstep as <-;
            (split; [|intros c' [= <-]; rewrite Hsup; discriminate]);
            intros c' Hc'; simpl in Hc';
            apply elem_of_union in Hc' as [Hc'|Hc'];
            try (apply elem_of_singleton in Hc'; subst c';
                 rewrite Hsup; discriminate);
            apply Hs, Hc'.
      - injection Hstep as <-. split; [exact Hs|]. intros c' [=]. }
    destruct Hstep' as [Hs1 Hframe].
    destruct (IH s1 Hs1 Hdone) as [Hs2 Hrest].
    split; [exact Hs2|].
    intros code_file Hin. apply elem_of_cons in Hin as [Heq|Hin].
    + apply Hframe. symmetry. exact Heq.
    + apply Hrest, Hin.
Qed.

Lemma walk_threads_completes supplier threads s :
  uninterrupted supplier s ->
  (walk_threads (Some supplier) threads s).1 = Some () ->
  forall thread code_file,
    thread ∈ threads -> Some code_file ∈ walked_modules thread ->
    supplier code_file <> INTERRUPT.
Proof.
  revert s. induction threads as [|thread rest IH]; intros s Hs Hdone.
  - intros thread code_file Hin. inversion Hin.
  - cbn [walk_threads] in Hdone. unfold bind in Hdone.
    destruct (walk_frames (Some supplier) (walked_modules thread) s)
      as [[[]|] s1] eqn:Hstep; [|simpl in Hdone; discriminate Hdone].
    destruct (walk_frames_completes supplier (walked_modules thread) s Hs)
      as [Hs1 Hframes]; [rewrite Hstep; reflexivity|].
    rewrite Hstep in Hs1. simpl in Hs1.
    intros thread' code_file Hin Hmod.
    apply elem_of_cons in Hin as [->|Hin].
    + apply Hframes, Hmod.
    + eapply (IH s1 Hs1 Hdone); eassumption.
Qed.

(** C8.  [Process] returns [PROCESS_ERROR_MINIDUMP_NOT_FOUND] when the
    dump cannot be read, [PROCESS_ERROR_NO_MINIDUMP_HEADER] when it can
    and its header is null, [PROCESS_ERROR_NO_THREAD_LIST] when the header
    is there and the thread list is null, and
    [PROCESS_SYMBOL_SUPPLIER_INTERRUPTED] when the dump has its header and
    threads and the supplier answers [INTERRUPT] for the module of some
    frame; whatever it returns is one of the eight statuses. *)
Theorem Process_status (p : MinidumpProcessor) (dump : Minidump) :
  (Read dump = false ->
   (Process p dump).1 = PROCESS_ERROR_MINIDUMP_NOT_FOUND)
  /\ (Read dump = true -> header dump = None ->
      (Process p dump).1 = PROCESS_ERROR_NO_MINIDUMP_HEADER)
  /\ (Read dump = true -> header dump <> None -> GetThreadList dump = None ->
      (Process p dump).1 = PROCESS_ERROR_NO_THREAD_LIST)
  /\ (forall supplier threads thread code_file,
        Read dump = true -> header dump <> None ->
        GetThreadList dump = Some threads ->
        supplier_ p = Some supplier ->
        thread ∈ threads ->
        Some code_file ∈ walked_modules thread ->
        supplier code_file = INTERRUPT ->
        (Process p dump).1 = PROCESS_SYMBOL_SUPPLIER_INTERRUPTED)
  /\ (Process p dump).1 ∈ closed_status_set.
Proof.
  unfold Process.
  split; [|split; [|split; [|split]]].
  - intros ->. reflexivity.
  - intros -> ->. reflexivity.
  - intros -> Hheader ->. destruct (header dump); [reflexivity|].
    contradiction Hheader. reflexivity.
  - intros supplier threads thread code_file -> Hheader -> -> Hthread Hmod Hint.
    destruct (header dump); [|contradiction Hheader; reflexivity]. simpl.
    destruct (walk_threads (Some supplier) threads
                {| requested := ∅; calls := [] |}) as [[[]|] s] eqn:Hrun;
      [|reflexivity].
    exfalso.
    refine (walk_threads_completes supplier threads
              {| requested := ∅; calls := [] |} _ _ thread code_file
              Hthread Hmod Hint).
    + intros c Hc. simpl in Hc. set_solver.
    + rewrite Hrun. reflexivity.
  - unfold closed_status_set.
    destruct (Read dump); simpl; [|set_solver].
    destruct (header dump); [|set_solver].
    destruct (GetThreadList dump) as [threads|]; [|set_solver].
    destruct (walk_threads (supplier_ p) threads
                {| requested := ∅; calls := [] |}) as [[[]|] s];
      simpl; set_solver.
Qed.

(** The four outcomes on the sample dump and three damaged copies of
    it. *)
Lemma Process_status_witness :
  (Process {| supplier_ := Some Sample.interrupting; lookups := [] |}
           Sample.dump).1
  = PROCESS_SYMBOL_SUPPLIER_INTERRUPTED
  /\ (Process {| supplier_ := Some Sample.no_symbols; lookups := [] |}
        {| Read := false; header := None; GetThreadList := None;
           GetSystemInfo := None; GetMemoryList := None |}).1
     = PROCESS_ERROR_MINIDUMP_NOT_FOUND
  /\ (Process {| supplier_ := Some Sample.no_symbols; lookups := [] |}
        {| Read := true; header := None; GetThreadList := None;
           GetSystemInfo := None; GetMemoryList := None |}).1
     = PROCESS_ERROR_NO_MINIDUMP_HEADER
  /\ (Process {| supplier_ := Some Sample.no_symbols; lookups := [] |}
        {| Read := true; header := Some 0; GetThreadList := None;
           GetSystemInfo := None; GetMemoryList := None |}).1
     = PROCESS_ERROR_NO_THREAD_LIST.
Proof.
  split; [|split; [|split]].
  - destruct (Process_status
                {| supplier_ := Some Sample.interrupting; lookups := [] |}
                Sample.dump) as (_ & _ & _ & Hint & _).
    refine (Hint Sample.interrupting _ _ "c:\test_app.exe"
              eq_refl _ eq_refl eq_refl _ _ eq_refl).
    + discriminate.
    + apply list_elem_of_here.
    + apply list_elem_of_here.
  - destruct (Process_status
                {| supplier_ := Some Sample.no_symbols; lookups := [] |}
                {| Read := false; header := None; GetThreadList := None;
                   GetSystemInfo := None; GetMemoryList := None |})
      as (Hread & _).
    exact (Hread eq_refl).
  - destruct (Process_status
                {| supplier_ := Some Sample.no_symbols; lookups := [] |}
                {| Read := true; header := None; GetThreadList := None;
                   GetSystemInfo := None; GetMemoryList := None |})
      as (_ & Hheader & _).
    exact (Hheader eq_refl eq_refl).
  - destruct (Process_status
                {| supplier_ := Some Sample.no_symbols; lookups := [] |}
                {| Read := true; header := Some 0; GetThreadList := None;
                   GetSystemInfo := None; GetMemoryList := None |})
      as (_ & _ & Hthreads & _).
    refine (Hthreads eq_refl _ eq_refl). discriminate.
Defined.

End ProcessorProperties.

(** * Further properties of the resolver *)

(** ** LookupAddress and ConstructInlineFrames together *)

Lemma ConstructInlineFrames_keeps_identity m frame address inline_map deque :
  let frame' := (ConstructInlineFrames m frame address inline_map deque).1 in
  instruction frame' = instruction frame
  /\ module frame' = module frame
  /\ trust frame' = trust frame.
Proof.
  unfold ConstructInlineFrames.
  destruct (StaticContainedRangeMap.RetrieveRanges inline_map address)
    as [inline_ptrs|]; [|simpl; tauto].
  destruct (last (push_inline_frames m frame address inline_ptrs deque));
    simpl; tauto.
Qed.

Lemma fill_from_function_keeps_identity m frame address func fbase :
  let frame' := fill_from_function m frame address func fbase in
  instruction frame' = instruction frame
  /\ module frame' = module frame
  /\ trust frame' = trust frame.
Proof.
  unfold fill_from_function.
  destruct (StaticRangeMap.RetrieveRange (Func.lines func) address)
    as [[[line line_base] line_size]|]; [|simpl; tauto].
  destruct (StaticMap.find (files_ m) (Line.source_file_id line));
    simpl; tauto.
Qed.

(** [LookupAddress] never writes the instruction, the module or the
    trust of the frame; a null [inlined_frames] stays null and a deque is
    handed back as a deque; and unless a function covers the address the
    deque comes back exactly as it was given. *)
Theorem LookupAddress_keeps_identity (m : FastModule) (frame : StackFrame)
    (code_module : CodeModule) (inlined_frames : option (list StackFrame)) :
  module frame = Some code_module ->
  let address := U64.sub (instruction frame) (base_address code_module) in
  let result := LookupAddress m frame inlined_frames in
  instruction result.1 = instruction frame
  /\ module result.1 = Some code_module
  /\ trust result.1 = trust frame
  /\ (result.2 = None <-> inlined_frames = None)
  /\ ((forall func fbase fsize,
          StaticRangeMap.RetrieveNearestRange (functions_ m) address
            = Some (func, fbase, fsize) ->
          range_contains address fbase fsize = false) ->
      result.2 = inlined_frames).
Proof.
  intros Hmod address result.
  assert (Haddr : U64.sub (instruction frame) (module_base frame) = address).
  { unfold module_base. rewrite Hmod. reflexivity. }
  unfold result, LookupAddress. rewrite Haddr. rewrite <- Hmod.
  destruct (StaticRangeMap.RetrieveNearestRange (functions_ m) address)
    as [[[func fbase] fsize]|] eqn:Hnear.
  - destruct (range_contains address fbase fsize) eqn:Hin.
    + pose proof (fill_from_function_keeps_identity m frame address func fbase)
        as (F1 & F2 & F3).
      destruct inlined_frames as [deque|].
      * pose proof (ConstructInlineFrames_keeps_identity m
          (fill_from_function m frame address func fbase) address
          (Func.inlines func) deque) as (K1 & K2 & K3).
        destruct (ConstructInlineFrames m
                    (fill_from_function m frame address func fbase) address
                    (Func.inlines func) deque) as [frame' deque'].
        simpl in *. rewrite K1, K2, K3, F1, F2, F3.
        repeat split; try discriminate.
        intros Hunc. specialize (Hunc func fbase fsize eq_refl).
        congruence.
      * simpl. rewrite F1, F2, F3. repeat split; reflexivity.
    + destruct (StaticAddressMap.Retrieve (public_symbols_ m) address)
        as [[public_symbol public_address]|];
        [destruct (fbase <? public_address)|];
        simpl; repeat split; auto; intros H; exact H.
  - destruct (StaticAddressMap.Retrieve (public_symbols_ m) address)
      as [[public_symbol public_address]|];
      simpl; repeat split; auto; intros H; exact H.
Qed.

(** The frame at [0x1005] of the sample with an empty deque: the deque
    comes back filled, the frame keeps its instruction. *)
Lemma LookupAddress_keeps_identity_witness :
  instruction (LookupAddress Sample.resolver_module (Sample.frame_at 0x1005)
                 (Some [])).1 = 0x401005.
Proof.
  exact (proj1 (LookupAddress_keeps_identity Sample.resolver_module
                  (Sample.frame_at 0x1005) Sample.test_app (Some [])
                  eq_refl)).
Defined.

Lemma fill_from_function_again m frame address func fbase :
  fill_from_function m (fill_from_function m frame address func fbase)
                     address func fbase
  = fill_from_function m frame address func fbase.
Proof.
  destruct frame. unfold fill_from_function.
  destruct (StaticRangeMap.RetrieveRange (Func.lines func) address)
    as [[[line line_base] line_size]|]; [|reflexivity].
  destruct (StaticMap.find (files_ m) (Line.source_file_id line));
    reflexivity.
Qed.

(** Resolving a frame that [LookupAddress] has already resolved (no
    inlined frames asked for) changes nothing: the second call finds the
    same address and writes the same values. *)
Theorem LookupAddress_again (m : FastModule) (frame : StackFrame)
    (code_module : CodeModule) :
  module frame = Some code_module ->
  LookupAddress m (LookupAddress m frame None).1 None
  = LookupAddress m frame None.
Proof.
  intros Hmod.
  set (address := U64.sub (instruction frame) (module_base frame)).
  assert (Hsame : forall frame',
    instruction frame' = instruction frame -> module frame' = module frame ->
    U64.sub (instruction frame') (module_base frame') = address).
  { intros frame' Hi Hm. unfold address, module_base. rewrite Hi, Hm.
    reflexivity. }
  unfold LookupAddress at 2 3. fold address.
  destruct (StaticRangeMap.RetrieveNearestRange (functions_ m) address)
    as [[[func fbase] fsize]|] eqn:Hnear.
  - destruct (range_contains address fbase fsize) eqn:Hin.
    + cbn [fst]. unfold LookupAddress.
      pose proof (fill_from_function_keeps_identity m frame address func fbase)
        as (F1 & F2 & _).
      rewrite (Hsame _ F1 F2), Hnear, Hin, fill_from_function_again.
      reflexivity.
    + destruct (StaticAddressMap.Retrieve (public_symbols_ m) address)
        as [[public_symbol public_address]|] eqn:Hpub.
      * destruct (fbase <? public_address) eqn:Htight; cbn [fst];
          unfold LookupAddress.
        -- rewrite (Hsame (fill_from_public_symbol frame public_symbol
                             public_address) eq_refl eq_refl).
           rewrite Hnear, Hin, Hpub, Htight. destruct frame. reflexivity.
        -- fold address. rewrite Hnear, Hin, Hpub, Htight. reflexivity.
      * cbn [fst]. unfold LookupAddress. fold address.
        rewrite Hnear, Hin, Hpub. reflexivity.
  - destruct (StaticAddressMap.Retrieve (public_symbols_ m) address)
      as [[public_symbol public_address]|] eqn:Hpub; cbn [fst];
      unfold LookupAddress.
    + rewrite (Hsame (fill_from_public_symbol frame public_symbol
                        public_address) eq_refl eq_refl).
      rewrite Hnear, Hpub. destruct frame. reflexivity.
    + fold address. rewrite Hnear, Hpub. reflexivity.
Qed.

Lemma LookupAddress_again_witness :
  LookupAddress Sample.resolver_module
    (LookupAddress Sample.resolver_module (Sample.frame_at 0x1009) None).1
    None
  = LookupAddress Sample.resolver_module (Sample.frame_at 0x1009) None.
Proof.
  exact (LookupAddress_again Sample.resolver_module (Sample.frame_at 0x1009)
           Sample.test_app eq_refl).
Defined.

(** The swap of lines 180-183 moves every file and line one frame towards
    the back: the saved pair enters at the front and the pair of the last
    frame leaves. *)
Lemma swap_file_line_shifts frames file number :
  (file_line <$> swap_file_line frames file number)
    ++ [default (file, number) (file_line <$> last frames)]
  = (file, number) :: (file_line <$> frames).
Proof.
  revert file number. induction frames as [|f rest IH]; intros file number.
  - reflexivity.
  - simpl swap_file_line. rewrite !fmap_cons. simpl app.
    f_equal.
    specialize (IH (source_file_name f) (source_line f)).
    destruct rest as [|g rest'].
    + reflexivity.
    + rewrite last_cons_cons.
      destruct (last (g :: rest')) as [x|] eqn:Hlast.
      * exact IH.
      * apply last_None in Hlast. discriminate Hlast.
Qed.

Lemma new_inline_frame_identity m frame address i :
  let new_frame := new_inline_frame m frame address i in
  instruction new_frame = instruction frame
  /\ module new_frame = module frame.
Proof.
  unfold new_inline_frame.
  destruct (StaticMap.find (inline_origins_ m) (Inline.origin_id i));
    destruct (Inline.has_call_site_file_id i);
    try destruct (StaticMap.find (files_ m) (Inline.call_site_file_id i));
    simpl; split; reflexivity.
Qed.

Lemma swap_file_line_identity frames file number k f' :
  swap_file_line frames file number !! k = Some f' ->
  exists f, frames !! k = Some f
            /\ instruction f' = instruction f
            /\ module f' = module f.
Proof.
  revert file number k.
  induction frames as [|f rest IH]; intros file number k H; simpl in H.
  - discriminate H.
  - destruct k as [|k]; simpl in H.
    + injection H as <-. exists f. simpl. repeat split; reflexivity.
    + apply IH in H. exact H.
Qed.

(** [ConstructInlineFrames] on any deque.  Without inline records at the
    address nothing changes.  With records, one frame per record is added
    behind the frames the deque holds, each with the instruction and the
    module of the enclosing frame and trust [FRAME_TRUST_INLINE]; and the
    files and lines move as one chain through the whole deque, the frames
    it held on entry included: read from the front of the deque to the
    enclosing frame, they are the enclosing frame's old pair followed by
    the pairs the frames held before the swap. *)
Theorem ConstructInlineFrames_on_any_deque (m : FastModule)
    (frame : StackFrame) (address : Z)
    (inline_map : StaticContainedRangeMap.t Inline.t)
    (deque : list StackFrame) :
  let result := ConstructInlineFrames m frame address inline_map deque in
  (StaticContainedRangeMap.RetrieveRanges inline_map address = None ->
   result = (frame, deque))
  /\ (forall inline_ptrs,
        StaticContainedRangeMap.RetrieveRanges inline_map address
          = Some inline_ptrs ->
        inline_ptrs <> [] ->
        let built := new_inline_frame m frame address <$> inline_ptrs in
        length result.2 = (length deque + length inline_ptrs)%nat
        /\ (forall k f, (length deque <= k)%nat -> result.2 !! k = Some f ->
              instruction f = instruction frame
              /\ module f = module frame
              /\ trust f = FRAME_TRUST_INLINE)
        /\ (file_line <$> result.2) ++ [file_line result.1]
           = file_line frame :: (file_line <$> (deque ++ built))).
Proof.
  intros result. split.
  - intros Hnone. apply ConstructInlineFrames_no_ranges. exact Hnone.
  - intros inline_ptrs Hranges Hne built.
    set (all := deque ++ built).
    assert (Hlast : exists back, last all = Some back).
    { destruct (last all) as [back|] eqn:Hl; [eauto|].
      apply last_None in Hl. unfold all in Hl.
      apply app_eq_nil in Hl as [_ Hb]. unfold built in Hb.
      apply fmap_nil_inv in Hb. contradiction. }
    destruct Hlast as [back Hback].
    assert (Hrun : result
      = (set_source_line (source_line back)
           (set_source_file_name (source_file_name back) frame),
         swap_file_line all (source_file_name frame) (source_line frame))).
    { unfold result, ConstructInlineFrames. rewrite Hranges.
      rewrite push_inline_frames_app. fold built. fold all.
      rewrite Hback. reflexivity. }
    rewrite Hrun. cbn [fst snd].
    split; [|split].
    + rewrite swap_file_line_length. unfold all, built.
      rewrite length_app, length_fmap. reflexivity.
    + intros k f Hk Hf.
      pose proof Hf as Hf'.
      apply swap_file_line_identity in Hf as (g & Hg & Hi & Hm).
      apply swap_file_line_keeps in Hf' as (g' & Hg' & _ & _ & Ht).
      rewrite Hg in Hg'. injection Hg' as <-.
      unfold all in Hg. rewrite lookup_app_r in Hg by exact Hk.
      unfold built in Hg. rewrite list_lookup_fmap in Hg.
      destruct (inline_ptrs !! (k - length deque)%nat) as [i|];
        [|discriminate Hg].
      injection Hg as <-.
      pose proof (new_inline_frame_identity m frame address i) as (Ni & Nm).
      pose proof (new_inline_frame_fields m frame address i) as (_ & _ & _ & Nt).
      rewrite Hi, Hm, Ht. auto.
    + pose proof (swap_file_line_shifts all (source_file_name frame)
                    (source_line frame)) as Hshift.
      rewrite Hback in Hshift. exact Hshift.
Qed.

(** A deque that already holds one frame, and the two inlines of the
    sample at [0x1005]: three frames afterwards. *)
Lemma ConstructInlineFrames_on_any_deque_witness :
  length (ConstructInlineFrames Sample.resolver_module Sample.leaf 0x1005
            (Func.inlines Sample.f) [Sample.frame_at 0x900]).2 = 3%nat.
Proof.
  destruct (ConstructInlineFrames_on_any_deque Sample.resolver_module
              Sample.leaf 0x1005 (Func.inlines Sample.f)
              [Sample.frame_at 0x900]) as [_ Hsome].
  destruct (Hsome [Sample.inner_inline; Sample.outer_inline] eq_refl)
    as (Hlen & _); [discriminate|exact Hlen].
Defined.

Lemma ConstructInlineFrames_run m frame address inline_map deque inline_ptrs
    back :
  StaticContainedRangeMap.RetrieveRanges inline_map address
    = Some inline_ptrs ->
  last (deque ++ (new_inline_frame m frame address <$> inline_ptrs))
    = Some back ->
  ConstructInlineFrames m frame address inline_map deque
  = (set_source_line (source_line back)
       (set_source_file_name (source_file_name back) frame),
     swap_file_line (deque ++ (new_inline_frame m frame address <$> inline_ptrs))
       (source_file_name frame) (source_line frame)).
Proof.
  intros Hranges Hback. unfold ConstructInlineFrames.
  rewrite Hranges, push_inline_frames_app, Hback. reflexivity.
Qed.

(** [LookupAddress] asked for inlined frames, at an address inside a
    function, a line record of it and a chain of inlines: the deque gets
    one frame per inline; the innermost inline frame carries the name of
    its origin and the file and line of the line record; the function's
    own frame keeps the function's name and the line's base and shows the
    call-site line of the outermost inline. *)
Theorem LookupAddress_with_inlines (m : FastModule) (frame : StackFrame)
    (code_module : CodeModule) (func : Func.t) (fbase fsize : Z)
    (line : Line.t) (line_base line_size : Z)
    (innermost : Inline.t) (rest : list Inline.t) :
  module frame = Some code_module ->
  let address := U64.sub (instruction frame) (base_address code_module) in
  StaticRangeMap.RetrieveNearestRange (functions_ m) address
    = Some (func, fbase, fsize) ->
  range_contains address fbase fsize = true ->
  StaticRangeMap.RetrieveRange (Func.lines func) address
    = Some (line, line_base, line_size) ->
  StaticContainedRangeMap.RetrieveRanges (Func.inlines func) address
    = Some (innermost :: rest) ->
  let result := LookupAddress m frame (Some []) in
  let outermost := default innermost (last (innermost :: rest)) in
  exists deque inner_frame,
    result.2 = Some deque
    /\ length deque = S (length rest)
    /\ deque !! 0%nat = Some inner_frame
    /\ function_name inner_frame = inline_name m innermost
    /\ file_line inner_frame
       = (default (source_file_name frame)
            (StaticMap.find (files_ m) (Line.source_file_id line)),
          Line.line line)
    /\ function_name result.1 = Func.name func
    /\ source_line result.1 = Inline.call_site_line outermost
    /\ source_line_base result.1
       = U64.add (base_address code_module) line_base.
Proof.
  intros Hmod address Hnear Hin Hline Hranges result outermost.
  assert (Hbase : module_base frame = base_address code_module).
  { unfold module_base. rewrite Hmod. reflexivity. }
  set (filled := fill_from_function m frame address func fbase).
  set (build := new_inline_frame m filled address).
  assert (Hlast : last ([] ++ (build <$> innermost :: rest))
                  = Some (build outermost)).
  { rewrite app_nil_l, fmap_last. unfold outermost.
    destruct (last (innermost :: rest)) as [o|] eqn:Ho; [reflexivity|].
    apply last_None in Ho. discriminate Ho. }
  pose proof (ConstructInlineFrames_run m filled address (Func.inlines func)
                [] (innermost :: rest) (build outermost) Hranges Hlast)
    as Hrun.
  assert (Hresult : result
    = (set_source_line (source_line (build outermost))
         (set_source_file_name (source_file_name (build outermost)) filled),
       Some (swap_file_line (build <$> innermost :: rest)
               (source_file_name filled) (source_line filled)))).
  { unfold result, LookupAddress. rewrite Hbase. fold address.
    rewrite Hnear, Hin. fold filled. rewrite Hrun. reflexivity. }
  assert (Hfilled : file_line filled
    = (default (source_file_name frame)
         (StaticMap.find (files_ m) (Line.source_file_id line)),
       Line.line line)
    /\ source_line_base filled = U64.add (base_address code_module) line_base).
  { unfold filled, fill_from_function, file_line. rewrite Hline.
    destruct (StaticMap.find (files_ m) (Line.source_file_id line));
      unfold module_base; simpl; rewrite Hmod; split; reflexivity. }
  destruct Hfilled as [Hleaf Hlbase].
  pose proof (fill_from_function_names m frame address func fbase)
    as (Hname & _).
  fold filled in Hname.
  rewrite fmap_cons in Hresult.
  eexists _, _. rewrite Hresult. cbn [fst snd].
  split; [reflexivity|].
  split; [simpl; rewrite swap_file_line_length, length_fmap; reflexivity|].
  split; [reflexivity|].
  split.
  { simpl. apply (new_inline_frame_fields m filled address innermost). }
  split; [exact Hleaf|].
  split; [exact Hname|].
  split; [|exact Hlbase].
  pose proof (new_inline_frame_fields m filled address outermost)
    as (Hsite & _).
  unfold file_line, call_site in Hsite. injection Hsite as _ Hsl.
  exact Hsl.
Qed.

(** The sample at [0x1005]: line record [a.cc:10], [inner_inline] inside
    [outer_inline]. *)
Lemma LookupAddress_with_inlines_witness :
  exists deque inner_frame,
    (LookupAddress Sample.resolver_module (Sample.frame_at 0x1005)
       (Some [])).2 = Some deque
    /\ deque !! 0%nat = Some inner_frame
    /\ function_name inner_frame = "inner_inl"
    /\ file_line inner_frame = ("a.cc", 10)
    /\ function_name (LookupAddress Sample.resolver_module
                        (Sample.frame_at 0x1005) (Some [])).1 = "f"
    /\ source_line (LookupAddress Sample.resolver_module
                      (Sample.frame_at 0x1005) (Some [])).1 = 20.
Proof.
  destruct (LookupAddress_with_inlines Sample.resolver_module
              (Sample.frame_at 0x1005) Sample.test_app Sample.f 0x1000 0x20
              {| Line.source_file_id := 1; Line.line := 10 |} 0x1000 0x10
              Sample.inner_inline [Sample.outer_inline]
              eq_refl eq_refl eq_refl eq_refl eq_refl)
    as (deque & inner_frame & H1 & _ & H3 & H4 & H5 & H6 & H7 & _).
  exists deque, inner_frame. repeat split; assumption.
Defined.

(** ** The range test of the inline ranges *)

(** The test of line 162, [address >= range.first && address <
    range.first + range.second], adds with wrap-around.  For a range
    whose end stays below [2^64] it is membership in the range, and the
    first such range that holds the address gives the base; a range whose
    end reaches [2^64] or lies beyond is skipped for every address, also
    for the addresses inside it (unlike the test of lines 92 and 311). *)
Theorem add_range_base_test (address first second function_base : Z)
    (rest : list (Z * Z)) :
  U64.in_range address -> U64.in_range first -> U64.in_range second ->
  (first + second < U64.modulus ->
   first <= address < first + second ->
   add_range_base address ((first, second) :: rest) function_base
   = U64.add function_base first)
  /\ (first + second < U64.modulus ->
      ~ first <= address < first + second ->
      add_range_base address ((first, second) :: rest) function_base
      = add_range_base address rest function_base)
  /\ (U64.modulus <= first + second ->
      add_range_base address ((first, second) :: rest) function_base
      = add_range_base address rest function_base).
Proof.
  unfold U64.in_range. intros Ha Hf Hs.
  assert (Hsmall : first + second < U64.modulus ->
                   U64.add first second = first + second).
  { intros Hlt. apply U64_wrap_small. unfold U64.in_range. lia. }
  assert (Hwrap : U64.modulus <= first + second ->
                  U64.add first second = first + second - U64.modulus).
  { intros Hge. unfold U64.add, U64.wrap. symmetry.
    apply (Z.mod_unique _ _ 1); lia. }
  simpl add_range_base. split; [|split].
  - intros Hlt Hin. rewrite (Hsmall Hlt).
    rewrite (proj2 (Z.leb_le _ _)), (proj2 (Z.ltb_lt _ _)) by lia.
    reflexivity.
  - intros Hlt Hout. rewrite (Hsmall Hlt).
    destruct (Z.leb_spec first address); [|reflexivity].
    rewrite (proj2 (Z.ltb_ge _ _)) by lia. reflexivity.
  - intros Hge. rewrite (Hwrap Hge).
    destruct (Z.leb_spec first address); [|reflexivity].
    rewrite (proj2 (Z.ltb_ge _ _)) by lia. reflexivity.
Qed.

(** The last 32 bytes of the address space as an inline range, and the
    address [2^64 - 1] inside it: the range is skipped. *)
Lemma add_range_base_test_witness :
  add_range_base 18446744073709551615 [(18446744073709551584, 32)] 0x400000
  = 0x400000.
Proof.
  refine (proj2 (proj2 (add_range_base_test 18446744073709551615
                          18446744073709551584 32 0x400000 [] _ _ _)) _);
    unfold U64.in_range, U64.modulus; lia.
Defined.

(** ** FindWindowsFrameInfo *)

(** What [FindWindowsFrameInfo] returns does not depend on the public
    symbols of the module, and it returns [nullptr] exactly when neither
    a [STACK_INFO_FRAME_DATA] nor a [STACK_INFO_FPO] record covers the
    address and no function contains it. *)
Theorem FindWindowsFrameInfo_ignores_public_symbols
    (STACK_INFO_FRAME_DATA STACK_INFO_FPO : nat) (VALID_PARAMETER_SIZE : Z)
    (WindowsFrameInfo_new : WindowsFrameInfo.t)
    (m : FastModule) (frame : StackFrame) (code_module : CodeModule)
    (public_symbols : StaticAddressMap.t PublicSymbol.t) :
  module frame = Some code_module ->
  let address := U64.sub (instruction frame) (base_address code_module) in
  let find := FindWindowsFrameInfo STACK_INFO_FRAME_DATA STACK_INFO_FPO
                VALID_PARAMETER_SIZE WindowsFrameInfo_new in
  find (with_public_symbols public_symbols m) frame = find m frame
  /\ (find m frame = None
      <-> RetrieveFrameInfo m STACK_INFO_FRAME_DATA address = None
          /\ RetrieveFrameInfo m STACK_INFO_FPO address = None
          /\ forall func fbase fsize,
               StaticRangeMap.RetrieveNearestRange (functions_ m) address
                 = Some (func, fbase, fsize) ->
               range_contains address fbase fsize = false).
Proof.
  intros Hmod address find.
  assert (Haddr : U64.sub (instruction frame) (module_base frame) = address).
  { unfold module_base. rewrite Hmod. reflexivity. }
  unfold find, FindWindowsFrameInfo, FindWindowsFrameInfo_run.
  rewrite Haddr.
  change (RetrieveFrameInfo (with_public_symbols public_symbols m))
    with (RetrieveFrameInfo m).
  change (functions_ (with_public_symbols public_symbols m))
    with (functions_ m).
  destruct (RetrieveFrameInfo m STACK_INFO_FRAME_DATA address) as [info|].
  { split; [reflexivity|]. split; [discriminate|].
    intros (H & _). discriminate H. }
  destruct (RetrieveFrameInfo m STACK_INFO_FPO address) as [info|].
  { split; [reflexivity|]. split; [discriminate|].
    intros (_ & H & _). discriminate H. }
  destruct (StaticRangeMap.RetrieveNearestRange (functions_ m) address)
    as [[[func fbase] fsize]|] eqn:Hnear.
  - destruct (range_contains address fbase fsize) eqn:Hin.
    + split; [reflexivity|]. split; [discriminate|].
      intros (_ & _ & H). specialize (H func fbase fsize eq_refl).
      congruence.
    + split; [reflexivity|]. split; [|reflexivity].
      intros _. repeat split. intros func' fbase' fsize' [= <- <- <-].
      exact Hin.
  - split; [reflexivity|]. split; [|reflexivity].
    intros _. repeat split. intros func fbase fsize H. discriminate H.
Qed.

(** The sample module with its public symbols taken away, at [0x2004]:
    [nullptr], as with them. *)
Lemma FindWindowsFrameInfo_ignores_public_symbols_witness :
  FindWindowsFrameInfo 4 0 1
    {| WindowsFrameInfo.type_ := -1; WindowsFrameInfo.valid := 0;
       WindowsFrameInfo.prolog_size := 0; WindowsFrameInfo.epilog_size := 0;
       WindowsFrameInfo.parameter_size := 0;
       WindowsFrameInfo.saved_register_size := 0;
       WindowsFrameInfo.local_size := 0;
       WindowsFrameInfo.max_stack_size := 0;
       WindowsFrameInfo.allocates_base_pointer := false;
       WindowsFrameInfo.program_string := "" |}
    (with_public_symbols [] Sample.resolver_module) (Sample.frame_at 0x2004)
  = FindWindowsFrameInfo 4 0 1
      {| WindowsFrameInfo.type_ := -1; WindowsFrameInfo.valid := 0;
         WindowsFrameInfo.prolog_size := 0; WindowsFrameInfo.epilog_size := 0;
         WindowsFrameInfo.parameter_size := 0;
         WindowsFrameInfo.saved_register_size := 0;
         WindowsFrameInfo.local_size := 0;
         WindowsFrameInfo.max_stack_size := 0;
         WindowsFrameInfo.allocates_base_pointer := false;
         WindowsFrameInfo.program_string := "" |}
      Sample.resolver_module (Sample.frame_at 0x2004).
Proof.
  exact (proj1 (FindWindowsFrameInfo_ignores_public_symbols 4 0 1 _
                  Sample.resolver_module (Sample.frame_at 0x2004)
                  Sample.test_app [] eq_refl)).
Defined.

(** ** FindCFIFrameInfo *)

(** Modelled range maps give ranges that start at or below the address
    they are found for. *)
Lemma StaticRangeMap_RetrieveRange_base {V : Type} (m : StaticRangeMap.t V)
    (address : Z) (v : V) (b s : Z) :
  StaticRangeMap.RetrieveRange m address = Some (v, b, s) -> b <= address.
Proof.
  induction m as [|r rest IH]; simpl; [discriminate|].
  destruct (address <=? StaticRangeMap.high r); [|exact IH].
  destruct (Z.leb_spec (StaticRangeMap.base r) address); [|discriminate].
  intros [= _ <- _]. assumption.
Qed.

Lemma filter_window_split (deltas : list (Z * string)) (low mid high : Z) :
  StaticMap.sorted deltas ->
  low <= mid + 1 -> mid <= high ->
  filter (fun kv : Z * string => low <= kv.1 <= high) deltas
  = filter (fun kv : Z * string => low <= kv.1 <= mid) deltas
    ++ filter (fun kv : Z * string => mid + 1 <= kv.1 <= high) deltas.
Proof.
  intros Hsorted Hlow Hhigh. unfold StaticMap.sorted in Hsorted.
  induction deltas as [|[k v] rest IH]; [reflexivity|].
  simpl in Hsorted. apply StronglySorted_inv in Hsorted as [Hrest Hhead].
  specialize (IH Hrest).
  destruct (decide (low <= k <= mid)) as [Hin|Hout].
  - rewrite (filter_cons_True _ (k, v)) by (simpl; lia).
    rewrite (filter_cons_True _ (k, v)) by (simpl; lia).
    rewrite (filter_cons_False _ (k, v)) by (simpl; lia).
    rewrite IH. reflexivity.
  - destruct (decide (mid + 1 <= k <= high)) as [Hin'|Hout'].
    + rewrite (filter_cons_True _ (k, v)) by (simpl; lia).
      rewrite (filter_cons_False _ (k, v)) by (simpl; lia).
      rewrite (filter_cons_True _ (k, v)) by (simpl; lia).
      rewrite (filter_keys_above rest low mid k) by (lia || exact Hhead).
      rewrite IH.
      rewrite (filter_keys_above rest low mid k) by (lia || exact Hhead).
      reflexivity.
    + rewrite !(filter_cons_False _ (k, v)) by (simpl; lia).
      exact IH.
Qed.

Section CFIFurther.

Variable CFIFrameInfo : Type.
Variable CFIFrameInfo_new : CFIFrameInfo.
Variable ParseCFIRuleSet : string -> CFIFrameInfo -> bool * CFIFrameInfo.

(** [FindCFIFrameInfo] returns rules exactly when a range of
    [cfi_initial_rules_] covers the address and [ParseCFIRuleSet] accepts
    its rule set; what [ParseCFIRuleSet] returns for a delta rule set
    never makes the lookup fail. *)
Theorem FindCFIFrameInfo_succeeds_iff (m : FastModule) (frame : StackFrame)
    (code_module : CodeModule) :
  module frame = Some code_module ->
  let address := U64.sub (instruction frame) (base_address code_module) in
  is_Some (FindCFIFrameInfo CFIFrameInfo CFIFrameInfo_new ParseCFIRuleSet
             m frame)
  <-> exists initial_rules initial_base initial_size,
        StaticRangeMap.RetrieveRange (cfi_initial_rules_ m) address
          = Some (initial_rules, initial_base, initial_size)
        /\ (ParseCFIRuleSet initial_rules CFIFrameInfo_new).1 = true.
Proof.
  intros Hmod address.
  assert (Haddr : U64.sub (instruction frame) (module_base frame) = address).
  { unfold module_base. rewrite Hmod. reflexivity. }
  unfold FindCFIFrameInfo. rewrite Haddr.
  destruct (StaticRangeMap.RetrieveRange (cfi_initial_rules_ m) address)
    as [[[initial_rules initial_base] initial_size]|].
  - destruct (ParseCFIRuleSet initial_rules CFIFrameInfo_new)
      as [[|] rules] eqn:Hparse; simpl; split.
    + intros _. exists initial_rules, initial_base, initial_size.
      rewrite Hparse. split; reflexivity.
    + intros _. eexists. reflexivity.
    + intros [x Hx]. discriminate Hx.
    + intros (r & b & s & [= <- <- <-] & Hok). rewrite Hparse in Hok.
      discriminate Hok.
  - split.
    + intros [x Hx]. discriminate Hx.
    + intros (r & b & s & H & _). discriminate H.
Qed.

(** Walking forward inside one initial range: for two addresses of the
    same range, the rules at the higher address are the rules at the
    lower address with the delta rules in between merged on top, in key
    order (keys of the delta map increasing). *)
Theorem FindCFIFrameInfo_walks_forward (m : FastModule)
    (frame frame' : StackFrame) (code_module code_module' : CodeModule)
    (initial_rules : string) (initial_base initial_size : Z) :
  module frame = Some code_module ->
  module frame' = Some code_module' ->
  StaticMap.sorted (cfi_delta_rules_ m) ->
  let address := U64.sub (instruction frame) (base_address code_module) in
  let address' := U64.sub (instruction frame') (base_address code_module') in
  address <= address' ->
  StaticRangeMap.RetrieveRange (cfi_initial_rules_ m) address
    = Some (initial_rules, initial_base, initial_size) ->
  StaticRangeMap.RetrieveRange (cfi_initial_rules_ m) address'
    = Some (initial_rules, initial_base, initial_size) ->
  (ParseCFIRuleSet initial_rules CFIFrameInfo_new).1 = true ->
  exists rules,
    FindCFIFrameInfo CFIFrameInfo CFIFrameInfo_new ParseCFIRuleSet m frame
      = Some rules
    /\ FindCFIFrameInfo CFIFrameInfo CFIFrameInfo_new ParseCFIRuleSet m frame'
       = Some (fold_left (merge_delta CFIFrameInfo ParseCFIRuleSet)
                 (filter (fun kv : Z * string => address < kv.1 <= address')
                         (cfi_delta_rules_ m))
                 rules).
Proof.
  intros Hmod Hmod' Hsorted address address' Hle Hrange Hrange' Hparse.
  assert (Haddr : U64.sub (instruction frame) (module_base frame) = address).
  { unfold module_base. rewrite Hmod. reflexivity. }
  assert (Haddr' : U64.sub (instruction frame') (module_base frame')
                   = address').
  { unfold module_base. rewrite Hmod'. reflexivity. }
  pose proof (StaticRangeMap_RetrieveRange_base _ _ _ _ _ Hrange) as Hbase.
  unfold FindCFIFrameInfo. rewrite Haddr, Haddr', Hrange, Hrange'.
  destruct (ParseCFIRuleSet initial_rules CFIFrameInfo_new)
    as [parsed rules0]. simpl in Hparse. subst parsed. simpl.
  eexists. split; [reflexivity|].
  f_equal.
  rewrite !apply_delta_rules_lower_bound by exact Hsorted.
  rewrite (filter_window_split (cfi_delta_rules_ m) initial_base address
             address') by (exact Hsorted || lia).
  rewrite fold_left_app. f_equal.
  apply list_filter_iff. intros [k v]. simpl. lia.
Qed.

End CFIFurther.

(** A frame in the line record of the sample and no more: the lookup
    succeeds. *)
Lemma FindCFIFrameInfo_succeeds_iff_witness :
  is_Some (FindCFIFrameInfo (list string) [] Sample.collect_rules
             Sample.resolver_module (Sample.frame_at 0x1005)).
Proof.
  apply (FindCFIFrameInfo_succeeds_iff (list string) [] Sample.collect_rules
           Sample.resolver_module (Sample.frame_at 0x1005) Sample.test_app
           eq_refl).
  exists ".cfa: $esp 4 +", 0x1000, 0x20. split; reflexivity.
Defined.

(** From [0x1002] to [0x1012] in the sample: the deltas at [0x1004] and
    [0x1010] come on top of what holds at [0x1002]. *)
Lemma FindCFIFrameInfo_walks_forward_witness :
  exists rules,
    FindCFIFrameInfo (list string) [] Sample.collect_rules
      Sample.resolver_module (Sample.frame_at 0x1002) = Some rules
    /\ FindCFIFrameInfo (list string) [] Sample.collect_rules
         Sample.resolver_module (Sample.frame_at 0x1012)
       = Some (rules ++ ["$ebp: .cfa 8 - ^"; ".cfa: $ebp 8 +"]).
Proof.
  assert (Hsorted : StaticMap.sorted (cfi_delta_rules_ Sample.resolver_module)).
  { unfold StaticMap.sorted. simpl.
    repeat (constructor; [|repeat constructor; lia]). constructor. }
  destruct (FindCFIFrameInfo_walks_forward (list string) []
              Sample.collect_rules Sample.resolver_module
              (Sample.frame_at 0x1002) (Sample.frame_at 0x1012)
              Sample.test_app Sample.test_app ".cfa: $esp 4 +" 0x1000 0x20
              eq_refl eq_refl Hsorted)
    as (rules & Hlow & Hhigh);
    [vm_compute; discriminate|reflexivity|reflexivity|reflexivity|].
  exists rules. split; [exact Hlow|].
  rewrite Hhigh.
  match goal with
  | |- context [filter ?P ?l] =>
      change (filter P l)
        with [(0x1004, "$ebp: .cfa 8 - ^"); (0x1010, ".cfa: $ebp 8 +")]
  end.
  simpl. unfold merge_delta. simpl. rewrite <- app_assoc. reflexivity.
Defined.

(** ** LoadMapFromMemory *)

Lemma sum_sizes_split map_sizes start a b :
  sum_sizes map_sizes start (a + b)
  = sum_sizes map_sizes start a + sum_sizes map_sizes (start + a) b.
Proof.
  revert start. induction a as [|a IH]; intros start.
  - simpl. rewrite Nat.add_0_r. lia.
  - simpl. rewrite IH.
    replace (S start + a)%nat with (start + S a)%nat by lia. lia.
Qed.

(** Every entry of [offsets] (lines 242-245), reduced to 64 bits. *)
Lemma offsets_of_nth STACK_INFO_LAST map_sizes i :
  (i < kNumberMaps_ STACK_INFO_LAST)%nat ->
  nth i (offsets_of STACK_INFO_LAST map_sizes) 0
  = U64.wrap (U32.wrap (Z.of_nat (kNumberMaps_ STACK_INFO_LAST) * 8)
              + sum_sizes map_sizes 0 i).
Proof.
  intros Hi. unfold offsets_of.
  set (header_size := U32.wrap (Z.of_nat (kNumberMaps_ STACK_INFO_LAST) * 8)).
  destruct i as [|i].
  - simpl. rewrite Z.add_0_r. symmetry. apply U64_wrap_small.
    unfold header_size, U32.wrap, U32.modulus, U64.in_range, U64.modulus.
    pose proof (Z.mod_pos_bound
                  (Z.of_nat (kNumberMaps_ STACK_INFO_LAST) * 8) (2 ^ 32)).
    lia.
  - cbn [nth]. rewrite fill_offsets_nth by lia. reflexivity.
Qed.

Lemma views_in_order_loaded STACK_INFO_LAST m memory_buffer memory_buffer_size :
  (LoadMapFromMemory STACK_INFO_LAST m (Some memory_buffer)
                     memory_buffer_size).1 = true ->
  views_in_order
    (LoadMapFromMemory STACK_INFO_LAST m (Some memory_buffer)
                       memory_buffer_size).2
  = (fun map_id =>
       view_at (drop 1 memory_buffer)
         (nth map_id
              (offsets_of STACK_INFO_LAST
                          (read_uint64 (drop 1 memory_buffer))) 0))
    <$> seq 0 (kNumberMaps_ STACK_INFO_LAST).
Proof.
  unfold LoadMapFromMemory.
  destruct (negb _ && negb _); [discriminate|]. intros _.
  cbn [snd]. unfold views_in_order. cbn [files_view
    functions_view public_symbols_view windows_frame_info_views
    cfi_initial_rules_view cfi_delta_rules_view inline_origins_view].
  assert (Hseq : seq 0 (kNumberMaps_ STACK_INFO_LAST)
    = [0; 1; 2]%nat ++ (Nat.add 3 <$> seq 0 STACK_INFO_LAST)
      ++ [3 + STACK_INFO_LAST; 3 + STACK_INFO_LAST + 1;
          3 + STACK_INFO_LAST + 2]%nat).
  { unfold kNumberMaps_. rewrite fmap_add_seq.
    replace (3 + STACK_INFO_LAST + 3)%nat
      with (3 + (STACK_INFO_LAST + 3))%nat by lia.
    rewrite (seq_app 3 (STACK_INFO_LAST + 3) 0).
    rewrite (seq_app STACK_INFO_LAST 3 (0 + 3)).
    replace (0 + 3 + STACK_INFO_LAST)%nat with (3 + STACK_INFO_LAST)%nat
      by lia.
    replace (3 + 0)%nat with (0 + 3)%nat by lia.
    cbn [seq]. repeat f_equal; lia. }
  rewrite Hseq, !fmap_app, <- list_fmap_compose. reflexivity.
Qed.

(** The maps of an accepted image lie one behind the other inside the
    buffer.  For a buffer that holds the flag byte and the header, a
    header size that fits [unsigned int] and a declared total that stays
    two bytes below [2^64]: when [LoadMapFromMemory] returns [true] the
    first view starts right behind the header, every further view starts
    where the map before it ends, and every map ends, with one byte to
    spare, within the [memory_buffer_size] bytes of the buffer. *)
Theorem LoadMapFromMemory_views_tile (STACK_INFO_LAST : nat)
    (m : ModuleViews) (memory_buffer : list byte) (memory_buffer_size : Z) :
  8 * Z.of_nat (kNumberMaps_ STACK_INFO_LAST) < U32.modulus ->
  1 + 8 * Z.of_nat (kNumberMaps_ STACK_INFO_LAST)
    <= Z.of_nat (length memory_buffer) ->
  U64.in_range memory_buffer_size ->
  declared_total STACK_INFO_LAST memory_buffer + 2 < U64.modulus ->
  let loaded :=
    LoadMapFromMemory STACK_INFO_LAST m (Some memory_buffer)
                      memory_buffer_size in
  loaded.1 = true ->
  let mem_buffer := drop 1 memory_buffer in
  let map_sizes := read_uint64 mem_buffer in
  let header_size := 8 * Z.of_nat (kNumberMaps_ STACK_INFO_LAST) in
  let views := views_in_order loaded.2 in
  length views = kNumberMaps_ STACK_INFO_LAST
  /\ views !! 0%nat = Some (Some (drop (Z.to_nat header_size) mem_buffer))
  /\ (forall i view,
        (S i < kNumberMaps_ STACK_INFO_LAST)%nat ->
        views !! i = Some (Some view) ->
        views !! S i = Some (Some (drop (Z.to_nat (map_sizes i)) view)))
  /\ (forall i,
        (i < kNumberMaps_ STACK_INFO_LAST)%nat ->
        1 + header_size + sum_sizes map_sizes 0 i + map_sizes i + 1
        <= memory_buffer_size).
Proof.
  intros Hheader Hlen Hsize Htotal loaded Hok mem_buffer map_sizes
         header_size views.
  set (k := kNumberMaps_ STACK_INFO_LAST) in *.
  assert (Hk : (6 <= k)%nat) by (unfold k, kNumberMaps_; lia).
  assert (Hnonneg : forall start count,
            0 <= sum_sizes map_sizes start count).
  { intros. apply sum_sizes_nonneg. intros j. apply read_uint64_nonneg. }
  assert (Hpart : forall i, (i < k)%nat ->
    sum_sizes map_sizes 0 i + map_sizes i <= sum_sizes map_sizes 0 k).
  { intros i Hi. replace k with (S i + (k - S i))%nat by lia.
    rewrite sum_sizes_split, sum_sizes_snoc. simpl Nat.add.
    pose proof (Hnonneg (S i) (k - S i)%nat). lia. }
  assert (Hdeclared : declared_total STACK_INFO_LAST memory_buffer
                      = 1 + header_size + sum_sizes map_sizes 0 k)
    by reflexivity.
  assert (Hoff : forall i, (i < k)%nat ->
    nth i (offsets_of STACK_INFO_LAST map_sizes) 0
    = header_size + sum_sizes map_sizes 0 i).
  { intros i Hi. rewrite offsets_of_nth by exact Hi. fold k.
    assert (Hw : U32.wrap (Z.of_nat k * 8) = header_size).
    { unfold U32.wrap, header_size. rewrite Z.mod_small; lia. }
    rewrite Hw. apply U64_wrap_small. unfold U64.in_range.
    pose proof (Hpart i Hi). pose proof (Hnonneg 0%nat i).
    pose proof (read_uint64_nonneg mem_buffer i). fold map_sizes in H1.
    unfold header_size in *. lia. }
  assert (Hviews : views
    = (fun map_id =>
         view_at mem_buffer (nth map_id (offsets_of STACK_INFO_LAST map_sizes) 0))
      <$> seq 0 k).
  { unfold views, loaded. apply views_in_order_loaded. exact Hok. }
  assert (Hview : forall i, (i < k)%nat ->
    views !! i
    = Some (Some (drop (Z.to_nat (header_size + sum_sizes map_sizes 0 i))
                       mem_buffer))).
  { intros i Hi. rewrite Hviews, list_lookup_fmap, lookup_seq_lt by exact Hi.
    cbn [fmap option_fmap option_map Nat.add].
    rewrite Hoff by exact Hi. reflexivity. }
  assert (Hbound : memory_buffer_size
                   >= declared_total STACK_INFO_LAST memory_buffer + 1).
  { unfold loaded, LoadMapFromMemory in Hok.
    fold mem_buffer in Hok. fold map_sizes in Hok.
    assert (Hexp : expected_size_of STACK_INFO_LAST map_sizes
                   = declared_total STACK_INFO_LAST memory_buffer + 1).
    { unfold map_sizes, mem_buffer.
      rewrite expected_size_of_total by exact Hheader.
      apply U64_wrap_small. unfold U64.in_range.
      pose proof (Hnonneg 0%nat k). unfold header_size in *. lia. }
    rewrite Hexp in Hok.
    destruct (Z.eqb_spec (declared_total STACK_INFO_LAST memory_buffer + 1)
                         memory_buffer_size) as [He|Hne]; [lia|].
    destruct (Z.eqb_spec (declared_total STACK_INFO_LAST memory_buffer + 1)
                         (U64.sub memory_buffer_size 1)) as [He'|Hne'];
      [|simpl in Hok; discriminate Hok].
    unfold U64.in_range in Hsize.
    destruct (Z.eq_dec memory_buffer_size 0) as [Hz|Hnz].
    - rewrite Hz in He'. change (U64.sub 0 1) with (U64.modulus - 1) in He'.
      lia.
    - rewrite U64_sub_no_borrow in He'
        by (unfold U64.in_range, U64.modulus in *; lia).
      lia. }
  split; [|split; [|split]].
  - rewrite Hviews, length_fmap, length_seq. reflexivity.
  - rewrite Hview by lia. simpl sum_sizes. rewrite Z.add_0_r. reflexivity.
  - intros i view Hi Hvi. rewrite Hview in Hvi by lia.
    injection Hvi as <-. rewrite Hview by exact Hi.
    rewrite drop_drop, sum_sizes_snoc. simpl Nat.add.
    do 3 f_equal.
    pose proof (Hnonneg 0%nat i).
    pose proof (read_uint64_nonneg mem_buffer i). fold map_sizes in H0.
    unfold header_size. lia.
  - intros i Hi. pose proof (Hpart i Hi). lia.
Qed.

(** The sample image of 93 bytes: eleven views. *)
Lemma LoadMapFromMemory_views_tile_witness :
  length (views_in_order
            (LoadMapFromMemory 5 Sample.unloaded (Some Sample.image) 93).2)
  = 11%nat.
Proof.
  refine (proj1 (LoadMapFromMemory_views_tile 5 Sample.unloaded Sample.image
                   93 _ _ _ _ _)).
  - vm_compute. reflexivity.
  - vm_compute. discriminate.
  - unfold U64.in_range, U64.modulus. lia.
  - vm_compute. reflexivity.
  - vm_compute. reflexivity.
Defined.

(** The [is_corrupt] flag is read before the size is checked: after a
    call on a buffer that holds the flag byte and the header,
    [is_corrupt_] tells whether the first byte is non-zero, whether the
    buffer was accepted or refused. *)
Theorem LoadMapFromMemory_reads_flag_first (STACK_INFO_LAST : nat)
    (m : ModuleViews) (memory_buffer : list byte) (memory_buffer_size : Z) :
  1 + 8 * Z.of_nat (kNumberMaps_ STACK_INFO_LAST)
    <= Z.of_nat (length memory_buffer) ->
  is_corrupt_ (LoadMapFromMemory STACK_INFO_LAST m (Some memory_buffer)
                                 memory_buffer_size).2
  = read_bool memory_buffer.
Proof.
  intros _. unfold LoadMapFromMemory.
  destruct (negb _ && negb _); reflexivity.
Qed.

(** The sample image offered with a wrong size: refused, and the module
    is marked corrupt all the same. *)
Lemma LoadMapFromMemory_reads_flag_first_witness :
  (LoadMapFromMemory 5 Sample.unloaded (Some Sample.image) 95).1 = false
  /\ is_corrupt_ (LoadMapFromMemory 5 Sample.unloaded (Some Sample.image)
                                    95).2 = true.
Proof.
  split; [vm_compute; reflexivity|].
  rewrite (LoadMapFromMemory_reads_flag_first 5 Sample.unloaded Sample.image
             95) by (vm_compute; discriminate).
  vm_compute. reflexivity.
Defined.

(** ** The address-list walker *)

(** [GetContextFrame] starts the walk over: from whatever index an
    earlier walk has left in a walker over a non-empty array, the context
    frame followed by the caller frames is again every address of the
    array in order, and the walker ends at [frame_count_]. *)
Theorem AddressList_walk_restarts (w : AddressList.t) (fuel : nat)
    (stack_scan_allowed : bool) :
  AddressList.frame_count_ w = length (AddressList.frames_ w) ->
  (0 < AddressList.frame_count_ w)%nat ->
  (AddressList.frame_count_ w <= S fuel)%nat ->
  let walked := AddressList.frames_of fuel w stack_scan_allowed in
  walked.1 = AddressList.prewalked_frame <$> AddressList.frames_ w
  /\ AddressList.next_frame_index_ walked.2 = AddressList.frame_count_ w
  /\ AddressList.frames_of fuel walked.2 stack_scan_allowed = walked.
Proof.
  intros Hcount Hpos Hfuel walked.
  assert (Hrun : forall w0 : AddressList.t,
    AddressList.frames_ w0 = AddressList.frames_ w ->
    AddressList.frame_count_ w0 = AddressList.frame_count_ w ->
    AddressList.system_info_ w0 = AddressList.system_info_ w ->
    AddressList.memory_ w0 = AddressList.memory_ w ->
    AddressList.frames_of fuel w0 stack_scan_allowed
    = (AddressList.prewalked_frame <$> AddressList.frames_ w,
       AddressList.set_next_frame_index (AddressList.frame_count_ w) w)).
  { intros w0 Hf Hc Hs Hm.
    unfold AddressList.frames_of, AddressList.GetContextFrame.
    rewrite Hc. rewrite (proj2 (Nat.eqb_neq _ _)) by lia.
    rewrite AddressList_callers; simpl; rewrite ?Hf, ?Hc; try lia;
      try exact Hcount.
    unfold AddressList.frame_at. rewrite Hf.
    destruct w0 as [si0 mem0 fr0 n0 i0], w as [si mem fr n i].
    simpl in *. subst.
    destruct fr as [|a rest]; [simpl in Hpos; lia|].
    simpl. rewrite drop_0. reflexivity. }
  assert (Hwalked : walked
    = (AddressList.prewalked_frame <$> AddressList.frames_ w,
       AddressList.set_next_frame_index (AddressList.frame_count_ w) w))
    by (apply Hrun; reflexivity).
  rewrite Hwalked. cbn [fst snd].
  split; [reflexivity|]. split; [reflexivity|].
  apply Hrun; reflexivity.
Qed.

(** A walker that has already handed out three of the four sample
    addresses. *)
Lemma AddressList_walk_restarts_witness :
  (AddressList.frames_of 3
     (AddressList.set_next_frame_index 3
        (AddressList.new Sample.addresses 4)) false).1
  = AddressList.prewalked_frame <$> Sample.addresses.
Proof.
  refine (proj1 (AddressList_walk_restarts
                   (AddressList.set_next_frame_index 3
                      (AddressList.new Sample.addresses 4)) 3 false
                   eq_refl _ _)); simpl; lia.
Defined.

(** ** CopyWFI *)

Lemma c_string_stops (text rest : list byte) :
  x00 ∉ text -> c_string (text ++ x00 :: rest) = text.
Proof.
  induction text as [|b text IH]; intros Hnul; simpl.
  - reflexivity.
  - apply not_elem_of_cons in Hnul as [Hb Htext].
    destruct (Byte.eqb b x00) eqn:Heq.
    + apply Byte.byte_dec_bl in Heq. congruence.
    + rewrite IH by exact Htext. reflexivity.
Qed.

(** Which bytes [CopyWFI] reads.  For a record laid out as the type, the
    validity word, six 32-bit sizes, one flag byte and a NUL-terminated
    string, the result is built from the type word, the six size words,
    the flag (true for any non-zero byte) and the string up to its NUL;
    the validity word (bytes 4 to 7) and whatever follows the NUL play no
    part. *)
Theorem CopyWFI_fields
    (int32_of_bytes uint32_of_bytes : list byte -> Z)
    (WindowsFrameInfo_make :
       Z -> Z -> Z -> Z -> Z -> Z -> Z -> bool -> string -> WindowsFrameInfo.t)
    (type valid prolog epilog parameter saved local max_stack : list byte)
    (flag : byte) (text rest : list byte) :
  Forall (fun word : list byte => length word = 4%nat)
         [type; valid; prolog; epilog; parameter; saved; local; max_stack] ->
  x00 ∉ text ->
  CopyWFI int32_of_bytes uint32_of_bytes WindowsFrameInfo_make
    (type ++ valid ++ prolog ++ epilog ++ parameter ++ saved ++ local
       ++ max_stack ++ [flag] ++ text ++ x00 :: rest)
  = WindowsFrameInfo_make (int32_of_bytes type) (uint32_of_bytes prolog)
      (uint32_of_bytes epilog) (uint32_of_bytes parameter)
      (uint32_of_bytes saved) (uint32_of_bytes local)
      (uint32_of_bytes max_stack)
      (negb (Z.of_N (Byte.to_N flag) =? 0))
      (String.string_of_list_byte text).
Proof.
  intros Hwords Hnul.
  repeat match goal with
         | H : Forall _ (_ :: _) |- _ =>
             apply Forall_cons in H as [? H]
         end.
  repeat match goal with
         | H : length ?word = 4%nat |- _ =>
             destruct word as [|? [|? [|? [|? [|? ?]]]]];
             try discriminate H; clear H
         end.
  unfold CopyWFI, four_bytes_at, sizeof_int32, byte_at.
  cbn [Nat.mul Nat.add app drop take nth].
  rewrite drop_0, c_string_stops by exact Hnul. reflexivity.
Qed.

(** Two records that differ in the validity word and behind the NUL only
    read the same: type 4, prolog size 3, flag set, program string
    [ab]; the words are read by their first byte. *)
Lemma CopyWFI_fields_witness :
  CopyWFI (fun word => byte_at word 0) (fun word => byte_at word 0)
    (fun type prolog _ _ _ _ _ allocates program =>
       {| WindowsFrameInfo.type_ := type; WindowsFrameInfo.valid := 0;
          WindowsFrameInfo.prolog_size := prolog;
          WindowsFrameInfo.epilog_size := 0;
          WindowsFrameInfo.parameter_size := 0;
          WindowsFrameInfo.saved_register_size := 0;
          WindowsFrameInfo.local_size := 0;
          WindowsFrameInfo.max_stack_size := 0;
          WindowsFrameInfo.allocates_base_pointer := allocates;
          WindowsFrameInfo.program_string := program |})
    ([x04; x00; x00; x00] ++ [xff; xff; xff; xff] ++ [x03; x00; x00; x00]
       ++ replicate 4 x00 ++ replicate 4 x00 ++ replicate 4 x00
       ++ replicate 4 x00 ++ replicate 4 x00 ++ [x01] ++ [x61; x62]
       ++ x00 :: [x7a])
  = {| WindowsFrameInfo.type_ := 4; WindowsFrameInfo.valid := 0;
       WindowsFrameInfo.prolog_size := 3;
       WindowsFrameInfo.epilog_size := 0;
       WindowsFrameInfo.parameter_size := 0;
       WindowsFrameInfo.saved_register_size := 0;
       WindowsFrameInfo.local_size := 0;
       WindowsFrameInfo.max_stack_size := 0;
       WindowsFrameInfo.allocates_base_pointer := true;
       WindowsFrameInfo.program_string := "ab" |}.
Proof.
  rewrite CopyWFI_fields.
  - reflexivity.
  - repeat constructor.
  - intros Hin. repeat (apply elem_of_cons in Hin as [Hin|Hin];
                        [discriminate Hin|]).
    inversion Hin.
Defined.

(** ** The barrier *)

Module BarrierProperties.
Import Barrier.

Lemma serial_is_not_zero : PTHREAD_BARRIER_SERIAL_THREAD <> 0.
Proof. unfold PTHREAD_BARRIER_SERIAL_THREAD. lia. Qed.

Lemma step_invariant (n : Z) (arrived : nat) (e : event) (s s' : system) :
  0 < n < U32.modulus ->
  invariant n arrived s ->
  Z.of_nat (arrived + arrivals [e]) <= n ->
  step e s = Some s' ->
  invariant n (arrived + arrivals [e]) s'.
Proof.
  intros Hn Hinv Hle Hstep. unfold invariant in *.
  destruct e as [thread|thread]; simpl in Hle, Hstep |- *.
  - destruct (decide (thread ∈ waiting s)); [discriminate Hstep|].
    destruct (decide (Z.of_nat arrived < n)) as [Hlt|Hge]; [|lia].
    destruct Hinv as (Hcount & Hret & Hwait).
    unfold wait_enter in Hstep. rewrite Hcount in Hstep.
    assert (Hwrap : U32.wrap (n - Z.of_nat arrived - 1)
                    = n - Z.of_nat arrived - 1).
    { unfold U32.wrap. apply Z.mod_small. lia. }
    rewrite Hwrap in Hstep.
    destruct (Z.eqb_spec (n - Z.of_nat arrived - 1) 0) as [Hz|Hnz];
      injection Hstep as <-; simpl.
    + destruct (decide (Z.of_nat (arrived + 1) < n)); [lia|].
      rewrite Hret. unfold serial_returns. simpl.
      split; [exact Hz|]. split.
      * reflexivity.
      * constructor; [left; reflexivity|constructor].
    + destruct (decide (Z.of_nat (arrived + 1) < n)); [|lia].
      split; [lia|]. split; [exact Hret|].
      rewrite length_app, Hwait. reflexivity.
  - rewrite Nat.add_0_r.
    destruct (decide (thread ∈ waiting s)); [|discriminate Hstep].
    unfold wait_resume in Hstep.
    destruct (decide (Z.of_nat arrived < n)) as [Hlt|Hge].
    + destruct Hinv as (Hcount & Hret & Hwait).
      rewrite (proj2 (Z.ltb_lt 0 (count (barrier s)))) in Hstep by lia.
      injection Hstep as <-. auto.
    + destruct Hinv as (Hcount & Hserial & Hall).
      rewrite Hcount in Hstep. simpl in Hstep. injection Hstep as <-.
      simpl. split; [exact Hcount|]. unfold serial_returns in *. simpl.
      split.
      * rewrite filter_app, length_app, Hserial.
        rewrite filter_cons_False
          by (simpl; intros H; symmetry in H; exact (serial_is_not_zero H)).
        reflexivity.
      * apply Forall_app. split; [exact Hall|].
        constructor; [right; reflexivity|constructor].
Qed.

Lemma run_invariant (n : Z) (events : list event) (arrived : nat)
    (s s' : system) :
  0 < n < U32.modulus ->
  invariant n arrived s ->
  Z.of_nat (arrived + arrivals events) <= n ->
  run events s = Some s' ->
  invariant n (arrived + arrivals events) s'.
Proof.
  intros Hn. revert arrived s.
  induction events as [|e rest IH]; intros arrived s Hinv Hle Hrun.
  - simpl in *. injection Hrun as <-. rewrite Nat.add_0_r. exact Hinv.
  - simpl in Hrun. destruct (step e s) as [s1|] eqn:Hstep; [|discriminate].
    assert (Hsplit : (arrived + arrivals (e :: rest)
                      = arrived + arrivals [e] + arrivals rest)%nat).
    { destruct e; simpl; lia. }
    rewrite Hsplit in *.
    apply (IH _ s1); [|exact Hle|exact Hrun].
    apply (step_invariant n arrived e s s1); try assumption. lia.
Qed.

Lemma start_invariant (n : Z) :
  0 < n < U32.modulus -> invariant n 0 (start n).
Proof.
  intros Hn. unfold invariant, start, pthread_barrier_init. simpl.
  destruct (decide (Z.of_nat 0 < n)); [|simpl in *; lia].
  unfold U32.wrap. rewrite Z.mod_small by lia.
  split; [simpl; lia|]. split; reflexivity.
Qed.

Lemma run_app (events events' : list event) (s : system) :
  run (events ++ events') s
  = match run events s with
    | Some s' => run events' s'
    | None => None
    end.
Proof.
  revert s. induction events as [|e rest IH]; intros s; simpl.
  - reflexivity.
  - destruct (step e s); [apply IH|reflexivity].
Qed.

Lemma run_keeps_returned (events : list event) (s s' : system)
    (r : nat * Z) :
  run events s = Some s' -> r ∈ returned s -> r ∈ returned s'.
Proof.
  revert s. induction events as [|e rest IH]; intros s Hrun Hr.
  - injection Hrun as <-. exact Hr.
  - simpl in Hrun. destruct (step e s) as [s1|] eqn:Hstep; [|discriminate].
    apply (IH s1 Hrun).
    destruct e as [thread|thread]; simpl in Hstep;
      destruct (decide (thread ∈ waiting s)); try discriminate Hstep.
    + destruct (wait_enter (barrier s)) as [[value|] b];
        injection Hstep as <-; simpl; [apply elem_of_app; left|]; exact Hr.
    + destruct (wait_resume (barrier s)) as [value|];
        injection Hstep as <-; simpl; [apply elem_of_app; left|]; exact Hr.
Qed.

(** A barrier initialised for [n] threads, under any order of calls and
    wake-ups with at most [n] calls of [pthread_barrier_wait].  While
    fewer than [n] threads have called, no call has returned and all of
    them wait.  Once [n] have called, the count is zero, exactly one call
    has returned [PTHREAD_BARRIER_SERIAL_THREAD], namely the [n]-th, every
    other finished call has returned 0, and each thread still waiting
    returns 0 at its next wake-up. *)
Theorem barrier_opens_at_last_arrival (n : Z) (events : list event)
    (s : system) :
  0 < n < U32.modulus ->
  Z.of_nat (arrivals events) <= n ->
  run events (start n) = Some s ->
  (Z.of_nat (arrivals events) < n ->
   returned s = [] /\ length (waiting s) = arrivals events)
  /\ (Z.of_nat (arrivals events) = n ->
      count (barrier s) = 0
      /\ length (serial_returns s) = 1%nat
      /\ Forall (fun r : nat * Z =>
                   r.2 = PTHREAD_BARRIER_SERIAL_THREAD \/ r.2 = 0)
                (returned s)
      /\ (forall before thread after,
            events = before ++ Enter thread :: after ->
            arrivals after = 0%nat ->
            (thread, PTHREAD_BARRIER_SERIAL_THREAD) ∈ returned s)
      /\ (forall thread,
            thread ∈ waiting s ->
            exists s', step (Wake thread) s = Some s'
                       /\ (thread, 0) ∈ returned s'
                       /\ thread ∉ waiting s')).
Proof.
  intros Hn Hle Hrun.
  pose proof (run_invariant n events 0 (start n) s Hn (start_invariant n Hn)
                Hle Hrun) as Hinv.
  simpl in Hinv. unfold invariant in Hinv.
  split.
  - intros Hlt. destruct (decide (Z.of_nat (arrivals events) < n)); [|lia].
    tauto.
  - intros Heq. destruct (decide (Z.of_nat (arrivals events) < n)); [lia|].
    destruct Hinv as (Hcount & Hserial & Hall).
    split; [exact Hcount|]. split; [exact Hserial|]. split; [exact Hall|].
    split.
    + intros before thread after -> Hafter.
      rewrite run_app in Hrun.
      destruct (run before (start n)) as [s1|] eqn:Hbefore; [|discriminate].
      assert (Harr : arrivals (before ++ Enter thread :: after)
                     = S (arrivals before)).
      { clear -Hafter. induction before as [|[t|t] rest IH]; simpl.
        - rewrite Hafter. reflexivity.
        - rewrite IH. reflexivity.
        - exact IH. }
      rewrite Harr in Heq.
      pose proof (run_invariant n before 0 (start n) s1 Hn
                    (start_invariant n Hn)) as Hinv1.
      simpl in Hinv1. specialize (Hinv1 ltac:(lia) Hbefore).
      unfold invariant in Hinv1.
      destruct (decide (Z.of_nat (arrivals before) < n)); [|lia].
      destruct Hinv1 as (Hcount1 & _ & _).
      simpl in Hrun.
      destruct (decide (thread ∈ waiting s1)); [discriminate Hrun|].
      unfold wait_enter in Hrun. rewrite Hcount1 in Hrun.
      replace (n - Z.of_nat (arrivals before) - 1) with 0 in Hrun by lia.
      simpl in Hrun.
      apply (run_keeps_returned after _ s _ Hrun). simpl.
      apply elem_of_app. right. apply list_elem_of_here.
    + intros thread Hin. simpl.
      destruct (decide (thread ∈ waiting s)); [|contradiction].
      unfold wait_resume. rewrite Hcount. simpl.
      eexists. split; [reflexivity|]. simpl. split.
      * apply elem_of_app. right. apply list_elem_of_here.
      * intros Hin'. apply list_elem_of_filter in Hin' as [Hne _].
        apply Hne. reflexivity.
Qed.

(** Three threads: two call and wait, one wakes spuriously and waits on,
    the third calls and gets [PTHREAD_BARRIER_SERIAL_THREAD]. *)
Lemma barrier_opens_at_last_arrival_witness :
  exists s,
    run [Enter 1; Enter 2; Wake 1; Enter 3] (start 3) = Some s
    /\ (3%nat, PTHREAD_BARRIER_SERIAL_THREAD) ∈ returned s.
Proof.
  eexists. split; [reflexivity|].
  refine (proj1 (proj2 (proj2 (proj2 (proj2
            (barrier_opens_at_last_arrival 3
               [Enter 1; Enter 2; Wake 1; Enter 3] _ _ _ eq_refl) eq_refl))))
            [Enter 1; Enter 2; Wake 1] 3%nat [] eq_refl eq_refl).
  - unfold U32.modulus. lia.
  - simpl. lia.
Defined.



End BarrierProperties.

(** ** The symbol supplier of the tests *)

Module TestSupplierProperties.
Import TestSupplier.

Section WithEnvironment.

Variable srcdir : option string.
Variable file_content : string -> option (list byte).

Lemma GetCStringSymbolData_test_app (supplier : t) (module : code_module) :
  code_file module = "c:\test_app.exe" ->
  interrupt_ supplier = false ->
  GetCStringSymbolData srcdir file_content supplier (Some module)
    (Some expected_system_info)
  = Some ({| result := Processor.FOUND;
             symbol_file := Some (test_app_sym srcdir module);
             symbol_data := Some (fresh (dom (allocated supplier)));
             symbol_data_size :=
               Some (Z.of_nat (length (test_app_data srcdir file_content module)) + 1) |},
          {| interrupt_ := false;
             memory_buffers_ :=
               match memory_buffers_ supplier !! "c:\test_app.exe" with
               | Some _ => memory_buffers_ supplier
               | None => <["c:\test_app.exe" :=
                           fresh (dom (allocated supplier))]>
                           (memory_buffers_ supplier)
               end;
             allocated :=
               <[fresh (dom (allocated supplier)) :=
                   test_app_data srcdir file_content module ++ [x00]]> (allocated supplier) |}).
Proof.
  intros Hfile Hint.
  assert (Hfound : GetSymbolFile srcdir supplier (Some module)
                     (Some expected_system_info)
                   = Some (Processor.FOUND,
                           Some (test_app_sym srcdir module))).
  { unfold GetSymbolFile. rewrite Hint, Hfile. reflexivity. }
  unfold GetCStringSymbolData, GetSymbolFile_data. rewrite Hfound.
  cbn [from_option]. rewrite Hfile, Hint. reflexivity.
Qed.

(** A module of [test_app] the supplier does not hold yet, asked for with
    the expected system information and no interrupt set:
    [GetCStringSymbolData] answers [FOUND] with a fresh array that holds
    the file up to its first byte [0xff] (nothing when the file cannot
    be opened) followed by a NUL, and with that length plus one as size;
    [FreeSymbolData] for the module then leaves the supplier exactly as
    it was before the two calls. *)
Theorem GetCStringSymbolData_then_FreeSymbolData (supplier : t)
    (module : code_module) :
  code_file module = "c:\test_app.exe" ->
  interrupt_ supplier = false ->
  memory_buffers_ supplier !! code_file module = None ->
  exists data supplier',
    GetCStringSymbolData srcdir file_content supplier (Some module)
      (Some expected_system_info)
    = Some ({| result := Processor.FOUND;
               symbol_file := Some (test_app_sym srcdir module);
               symbol_data := Some data;
               symbol_data_size :=
                 Some (Z.of_nat (length (test_app_data srcdir file_content module)) + 1) |},
            supplier')
    /\ allocated supplier !! data = None
    /\ allocated supplier' !! data = Some (test_app_data srcdir file_content module ++ [x00])
    /\ memory_buffers_ supplier' !! code_file module = Some data
    /\ FreeSymbolData supplier' module = supplier.
Proof.
  intros Hfile Hint Hfree.
  rewrite (GetCStringSymbolData_test_app supplier module Hfile Hint).
  rewrite Hfile in Hfree |- *. rewrite Hfree.
  set (data := fresh (dom (allocated supplier))).
  assert (Hdata : allocated supplier !! data = None).
  { apply not_elem_of_dom. apply is_fresh. }
  eexists _, _. split; [reflexivity|]. simpl.
  split; [exact Hdata|].
  split; [apply lookup_insert_eq|].
  split; [apply lookup_insert_eq|].
  unfold FreeSymbolData. simpl. rewrite Hfile, lookup_insert_eq.
  rewrite delete_insert_id by exact Hfree.
  rewrite delete_insert_id by exact Hdata.
  destruct supplier. simpl in *. subst. reflexivity.
Qed.

(** [memory_buffers_.insert] does not replace: when the supplier already
    holds an array for the module, a further [GetCStringSymbolData]
    allocates a second array and the map keeps the first, so
    [FreeSymbolData] deletes the first one only; the second array stays
    allocated, no entry of the map leads to it, and a further
    [FreeSymbolData] changes nothing. *)
Theorem GetCStringSymbolData_twice_leaks (supplier : t)
    (module : code_module) (held : nat) (held_bytes : list byte) :
  code_file module = "c:\test_app.exe" ->
  interrupt_ supplier = false ->
  memory_buffers_ supplier !! code_file module = Some held ->
  allocated supplier !! held = Some held_bytes ->
  exists answer supplier' data,
    GetCStringSymbolData srcdir file_content supplier (Some module)
      (Some expected_system_info) = Some (answer, supplier')
    /\ symbol_data answer = Some data
    /\ data <> held
    /\ let freed := FreeSymbolData supplier' module in
       allocated freed !! held = None
       /\ allocated freed !! data = Some (test_app_data srcdir file_content module ++ [x00])
       /\ memory_buffers_ freed !! code_file module = None
       /\ FreeSymbolData freed module = freed.
Proof.
  intros Hfile Hint Hheld Hlive.
  rewrite (GetCStringSymbolData_test_app supplier module Hfile Hint).
  rewrite Hfile in Hheld |- *. rewrite Hheld.
  set (data := fresh (dom (allocated supplier))).
  assert (Hdata : allocated supplier !! data = None).
  { apply not_elem_of_dom. apply is_fresh. }
  assert (Hne : data <> held).
  { intros Heq. rewrite Heq, Hlive in Hdata. discriminate Hdata. }
  eexists _, _, data. split; [reflexivity|]. simpl.
  split; [reflexivity|]. split; [exact Hne|].
  unfold FreeSymbolData. simpl. rewrite Hfile, Hheld. simpl.
  split; [apply lookup_delete_eq|].
  split.
  { rewrite lookup_delete_ne by (intros H; apply Hne; symmetry; exact H).
    apply lookup_insert_eq. }
  split; [apply lookup_delete_eq|].
  rewrite lookup_delete_eq. reflexivity.
Qed.

End WithEnvironment.

(** A supplier that holds nothing, and a symbol file of three bytes with
    [0xff] in the middle: the array is the first byte and a NUL. *)
Lemma GetCStringSymbolData_then_FreeSymbolData_witness :
  exists data supplier',
    GetCStringSymbolData None (fun _ => Some [x4d; xff; x4f])
      {| interrupt_ := false; memory_buffers_ := ∅; allocated := ∅ |}
      (Some {| code_file := "c:\test_app.exe"; debug_identifier := "5A98" |})
      (Some expected_system_info)
    = Some ({| result := Processor.FOUND;
               symbol_file :=
                 Some "./src/processor/testdata/symbols/test_app.pdb/5A98/test_app.sym";
               symbol_data := Some data;
               symbol_data_size := Some 2 |}, supplier')
    /\ allocated supplier' !! data = Some [x4d; x00].
Proof.
  destruct (GetCStringSymbolData_then_FreeSymbolData None
              (fun _ => Some [x4d; xff; x4f])
              {| interrupt_ := false; memory_buffers_ := ∅; allocated := ∅ |}
              {| code_file := "c:\test_app.exe"; debug_identifier := "5A98" |}
              eq_refl eq_refl (lookup_empty _))
    as (data & supplier' & Hget & _ & Hbytes & _).
  exists data, supplier'. split; [exact Hget|exact Hbytes].
Defined.

(** A supplier that already holds the array at address 7 for
    [test_app]. *)
Lemma GetCStringSymbolData_twice_leaks_witness :
  exists answer supplier' data,
    GetCStringSymbolData None (fun _ => None)
      {| interrupt_ := false;
         memory_buffers_ := {["c:\test_app.exe" := 7%nat]};
         allocated := {[7%nat := [x00]]} |}
      (Some {| code_file := "c:\test_app.exe"; debug_identifier := "5A98" |})
      (Some expected_system_info) = Some (answer, supplier')
    /\ symbol_data answer = Some data
    /\ allocated
         (FreeSymbolData supplier'
            {| code_file := "c:\test_app.exe"; debug_identifier := "5A98" |})
       !! data = Some [x00].
Proof.
  destruct (GetCStringSymbolData_twice_leaks None (fun _ => None)
              {| interrupt_ := false;
                 memory_buffers_ := {["c:\test_app.exe" := 7%nat]};
                 allocated := {[7%nat := [x00]]} |}
              {| code_file := "c:\test_app.exe"; debug_identifier := "5A98" |}
              7%nat [x00] eq_refl eq_refl
              (lookup_singleton_eq _ _) (lookup_singleton_eq _ _))
    as (answer & supplier' & data & Hget & Hdata & _ & _ & Hleak & _).
  exists answer, supplier', data.
  split; [exact Hget|]. split; [exact Hdata|exact Hleak].
Defined.

End TestSupplierProperties.
